(** * DarkMatters: the Crank-Nicolson electron solver [cn_scheme]

    A shallow embedding of [dark_matters/emissions/cn_electron.py] and the
    properties of its stencils, its time-step controller and its main loop.

    The program computes on IEEE doubles through numpy.  The embedding keeps
    the arithmetic abstract (class [Arith]): every definition below is the
    source expression, operation for operation and in the source's order of
    evaluation, over an arbitrary carrier.  Two carriers are used:
    the reals (the exact arithmetic the formulae are about) and the
    primitive binary64 floats (where non-finite values exist).

    Two further modules of the repository follow the solver: the scalar
    cosmology helpers of [wimp_tools/cosmology.py] (module [Cosmology],
    over the reals) and the checks of the cosmology and diffusion
    dictionaries of [dark_matters/dictionary_checks.py] (module
    [DictionaryChecks]). *)

From Stdlib Require Import List ZArith Bool Lia Arith.
From Stdlib Require Import Reals Lra.
From Stdlib Require Import Floats.
From Stdlib Require Strings.String.
Import ListNotations.

Set Implicit Arguments.

(** ** Arithmetic interface *)

Class Arith (F : Type) : Type := {
  of_Z : Z -> F;                (* an integer literal or Python int used as a float *)
  dec : Z -> Z -> F;            (* the decimal literal  m e  stands for m * 10^e *)
  fadd : F -> F -> F;
  fsub : F -> F -> F;
  fmul : F -> F -> F;
  fdiv : F -> F -> F;
  fneg : F -> F;
  fabs : F -> F;
  fpowi : F -> Z -> F;          (* x ** n, n a Python int *)
  fpow : F -> F -> F;           (* x ** y, y a float *)
  fln : F -> F;                 (* np.log *)
  flog10 : F -> F;              (* np.log10 *)
  fmin : F -> F -> F;           (* np.minimum *)
  fltb : F -> F -> bool;        (* x < y *)
  feqb : F -> F -> bool         (* x == y *)
}.

Declare Scope num_scope.
Delimit Scope num_scope with num.
Infix "+" := fadd : num_scope.
Infix "-" := fsub : num_scope.
Infix "*" := fmul : num_scope.
Infix "/" := fdiv : num_scope.
Notation "- x" := (fneg x) : num_scope.
Infix "^" := fpowi : num_scope.
Infix "**" := fpow (at level 30, right associativity) : num_scope.
Infix "<?" := fltb : num_scope.
Notation "x >? y" := (fltb y x) : num_scope.
Infix "==?" := feqb (at level 70) : num_scope.

(** ** Python exceptions and outcomes *)

Inductive exn : Type :=
  IndexError | ValueError | TypeError | NameError | AttributeError
| ZeroDivisionError.

Inductive outcome (A : Type) : Type :=
| Ok (a : A)
| Raised (e : exn)
| OutOfFuel.
Arguments Ok {A} a.
Arguments Raised {A} e.
Arguments OutOfFuel {A}.

Definition bind {A B : Type} (m : outcome A) (k : A -> outcome B) : outcome B :=
  match m with
  | Ok a => k a
  | Raised e => Raised e
  | OutOfFuel => OutOfFuel
  end.

Notation "'do' x <- m ; k" := (bind m (fun x => k))
  (at level 10, x pattern, m at level 100, k at level 200).

Definition is_ok {A : Type} (m : outcome A) : bool :=
  match m with Ok _ => true | _ => false end.


(** [1/n] for a Python number [n]: ZeroDivisionError when [n] is zero. *)
Definition nonzero_divisor (n : Z) : outcome unit :=
  if Z.eqb n 0 then Raised ZeroDivisionError else Ok tt.

(** ** Arrays *)

Abbreviation vector F := (list F) (only parsing).
Abbreviation matrix F := (list (list F)) (only parsing).

Section Arrays.
Context {F : Type} {AF : Arith F}.
Local Open Scope num_scope.

Definition zero : F := of_Z 0.
Definition one : F := of_Z 1.

(** [a[i]] for an index the callers keep in range ([np.arange] of the
    array's own length); the default stands for no element. *)
Definition get (a : vector F) (i : nat) : F := nth i a zero.
Definition row (m : matrix F) (i : nat) : vector F := nth i m [].
Definition get2 (m : matrix F) (i j : nat) : F := get (row m i) j.

Definition nrows (m : matrix F) : nat := length m.
Definition ncols (m : matrix F) : nat := length (hd [] m).
Definition has_shape (I J : nat) (m : matrix F) : Prop :=
  length m = I /\ Forall (fun r => length r = J) m.

(** Elementwise operations of two arrays of one shape. *)
Fixpoint map2 {A B C : Type} (f : A -> B -> C) (a : list A) (b : list B) : list C :=
  match a, b with
  | x :: a', y :: b' => f x y :: map2 f a' b'
  | _, _ => []
  end.

Definition mmap (f : F -> F) (m : matrix F) : matrix F := map (map f) m.

Definition np_zeros (n : nat) : vector F := repeat zero n.
Definition np_ones (n : nat) : vector F := repeat one n.
Definition ones_like (a : vector F) : vector F := map (fun _ => one) a.
Definition np_arange (n : nat) : list nat := seq 0 n.

(** [np.tensordot(a, b, axes=0)]: the outer product. *)
Definition tensordot (a b : vector F) : matrix F :=
  map (fun x => map (fun y => x * y) b) a.

(** [np.min] of a non-empty array. *)
Definition np_min (a : vector F) : F :=
  match a with
  | [] => zero
  | x :: r => fold_left fmin r x
  end.


(** [a[lo:lo+len(v)] = v], the slice lying inside [a]. *)
Definition set_slice (a : vector F) (lo : nat) (v : vector F) : vector F :=
  firstn lo a ++ v ++ skipn (lo + length v) a.

(** [m.transpose()] of a rectangular matrix F. *)
Definition transpose (m : matrix F) : matrix F :=
  map (fun j => map (fun r => get r j) m) (seq 0 (ncols m)).

(** [m.flatten('C')] (row-major) and [m.flatten('F')] (column-major). *)
Definition flattenC (m : matrix F) : vector F := concat m.
Definition flattenF (m : matrix F) : vector F := concat (transpose m).

(** [np.reshape(v, (I,J), order)]: numpy raises ValueError unless
    [v] has I*J entries. *)
Definition reshapeC (I J : nat) (v : vector F) : outcome (matrix F) :=
  if Nat.eqb (length v) (I * J)
  then Ok (map (fun i => map (fun j => get v (i * J + j)) (seq 0 J)) (seq 0 I))
  else Raised ValueError.

Definition reshapeF (I J : nat) (v : vector F) : outcome (matrix F) :=
  if Nat.eqb (length v) (I * J)
  then Ok (map (fun i => map (fun j => get v (j * I + i)) (seq 0 J)) (seq 0 I))
  else Raised ValueError.

(** [m[-1,:] = 0]: IndexError on an array without rows. *)
Definition zero_last_row (m : matrix F) : outcome (matrix F) :=
  match m with
  | [] => Raised IndexError
  | _ => Ok (removelast m ++ [map (fun _ => zero) (last m [])])
  end.

(** [a[i]] where the source indexes with a literal: IndexError when short. *)
Definition index (a : vector F) (i : nat) : outcome F :=
  match nth_error a i with
  | Some x => Ok x
  | None => Raised IndexError
  end.

(** ** Sparse tridiagonal matrices

    [sparse.diags(diagonals=[l,m,u], offsets=[-1,0,1], shape=(n,n))]
    puts [m[r]] at (r,r), [u[r]] at (r,r+1) and [l[r]] at (r+1,r); the
    entries of [l] and [u] past n-1 are not read. *)
Record sparse : Type := mk_sparse {
  sp_n : nat;
  sp_lower : vector F;
  sp_main : vector F;
  sp_upper : vector F
}.

Definition sparse_diags (l m u : vector F) (n : nat) : sparse :=
  mk_sparse n l m u.

Definition entry (A : sparse) (r c : nat) : F :=
  if andb (Nat.ltb r (sp_n A)) (Nat.ltb c (sp_n A)) then
    if Nat.eqb c (S r) then get (sp_upper A) r
    else if Nat.eqb c r then get (sp_main A) r
    else if Nat.eqb r (S c) then get (sp_lower A) c
    else zero
  else zero.

(** [A.dot(x)]: the stored entries of row r, by increasing column. *)
Definition dot_row (A : sparse) (x : vector F) (r : nat) : F :=
  let lo := match r with
            | O => zero
            | S r' => get (sp_lower A) r' * get x r'
            end in
  let mid := get (sp_main A) r * get x r in
  let up := if Nat.ltb (S r) (sp_n A) then get (sp_upper A) r * get x (S r) else zero in
  (lo + mid) + up.

Definition dot (A : sparse) (x : vector F) : vector F :=
  map (dot_row A x) (seq 0 (sp_n A)).

End Arrays.

Arguments sparse F : clear implicits.

(** ** The solver object *)

Inductive effect_kind : Type := Loss | Diffusion | All.

Definition in_loss_all (e : effect_kind) : bool :=
  match e with Loss | All => true | Diffusion => false end.
Definition in_diffusion_all (e : effect_kind) : bool :=
  match e with Diffusion | All => true | Loss => false end.

Section Solver.
Context {F : Type} {AF : Arith F}.
Local Open Scope num_scope.

(** The dictionary [self.constants]; its five keys are fixed. *)
Record loss_constants : Type := mk_constants {
  ICISRF : F; ICCMB : F; sync : F; coul : F; brem : F
}.

Definition snapshot : Type := (matrix F * F)%type.

(** The attributes of [cn_scheme] once [solveElectrons] has set the
    equation environment.  Attributes that stay [None] in some mode are
    options. *)
Record cn_scheme : Type := mk_cn_scheme {
  effect : effect_kind;
  Q : matrix F;
  electrons : option (matrix F);
  r_bins : nat;
  E_bins : nat;
  r_grid : vector F;
  E_grid : vector F;
  r0 : F;
  E0 : F;
  logr_grid : vector F;
  logE_grid : vector F;
  D : matrix F;
  dDdr : matrix F;
  b : matrix F;
  constants : loss_constants;
  Delta_r : F;
  Delta_E : F;
  Delta_t : F;
  Delta_ti : F;
  loss_ts : matrix F;
  diff_ts : matrix F;
  benchmark_flag : bool;
  const_Delta_t : bool;
  smallest_Delta_t : option F;
  max_t_part : option Z;
  Delta_t_reduction : option F;
  animation_flag : bool;
  snapshots : option (list snapshot)
}.

Definition set_Delta_t (s : cn_scheme) (x : F) : cn_scheme :=
  mk_cn_scheme (effect s) (Q s) (electrons s) (r_bins s) (E_bins s) (r_grid s)
    (E_grid s) (r0 s) (E0 s) (logr_grid s) (logE_grid s) (D s) (dDdr s) (b s)
    (constants s) (Delta_r s) (Delta_E s) x (Delta_ti s) (loss_ts s) (diff_ts s)
    (benchmark_flag s) (const_Delta_t s) (smallest_Delta_t s) (max_t_part s)
    (Delta_t_reduction s) (animation_flag s) (snapshots s).

Definition set_snapshots (s : cn_scheme) (x : option (list snapshot)) : cn_scheme :=
  mk_cn_scheme (effect s) (Q s) (electrons s) (r_bins s) (E_bins s) (r_grid s)
    (E_grid s) (r0 s) (E0 s) (logr_grid s) (logE_grid s) (D s) (dDdr s) (b s)
    (constants s) (Delta_r s) (Delta_E s) (Delta_t s) (Delta_ti s) (loss_ts s)
    (diff_ts s) (benchmark_flag s) (const_Delta_t s) (smallest_Delta_t s)
    (max_t_part s) (Delta_t_reduction s) (animation_flag s) x.


(** *** Prefactors of the log transform *)

Definition prefactor (x scale : F) : F :=
  (of_Z 10 ** x * fln (of_Z 10) * scale) ^ (-1).

Definition r_prefactor (s : cn_scheme) (i : nat) : F :=
  prefactor (get (logr_grid s) i) (r0 s).

Definition E_prefactor (s : cn_scheme) (j : nat) : F :=
  prefactor (get (logE_grid s) j) (E0 s).

(** *** Alpha coefficients, on index arrays as the source calls them *)

Definition r_alpha1 (s : cn_scheme) (i : list nat) (j : nat) : vector F :=
  map (fun i =>
         Delta_t s * r_prefactor s i ^ 2
         * (- (flog10 (of_Z 10) * get2 (D s) i j + get2 (dDdr s) i j)
              / (of_Z 2 * Delta_r s)
            + get2 (D s) i j / Delta_r s ^ 2)) i.

Definition r_alpha_boundary (s : cn_scheme) (j : nat) : F :=
  Delta_t s * r_prefactor s 0 ^ 2 * of_Z 4 * get2 (D s) 0 j / Delta_r s ^ 2.

(** [alpha[0]] on an empty index array is an IndexError in numpy; the
    callers pass slices of [np.arange(I)] with I >= 2. *)
Definition r_alpha2 (s : cn_scheme) (i : list nat) (j : nat) : vector F :=
  match i with
  | [] => []
  | _ :: i1 =>
      r_alpha_boundary s j
      :: map (fun i => Delta_t s * r_prefactor s i ^ 2
                       * (of_Z 2 * get2 (D s) i j / Delta_r s ^ 2)) i1
  end.

Definition r_alpha3 (s : cn_scheme) (i : list nat) (j : nat) : vector F :=
  match i with
  | [] => []
  | _ :: i1 =>
      r_alpha_boundary s j
      :: map (fun i =>
                Delta_t s * r_prefactor s i ^ 2
                * ((flog10 (of_Z 10) * get2 (D s) i j + get2 (dDdr s) i j)
                     / (of_Z 2 * Delta_r s)
                   + get2 (D s) i j / Delta_r s ^ 2)) i1
  end.

Definition E_alpha1 (s : cn_scheme) (i : nat) (j : list nat) : vector F :=
  np_zeros (length j).

Definition E_alpha2 (s : cn_scheme) (i : nat) (j : list nat) : vector F :=
  map (fun j => Delta_t s * E_prefactor s j * get2 (b s) i j / Delta_E s) j.

(** [alpha[:-1]] takes the entries of [j[:-1]] shifted by one, [alpha[-1]]
    the last entry of [j] as it is (IndexError on an empty [j]). *)
Definition E_alpha3 (s : cn_scheme) (i : nat) (j : list nat) : vector F :=
  match j with
  | [] => []
  | _ =>
      map (fun j => Delta_t s
                    * (E_prefactor s (j + 1) * get2 (b s) i (j + 1) / Delta_E s))
          (removelast j)
      ++ [Delta_t s
          * (E_prefactor s (last j 0%nat) * get2 (b s) i (last j 0%nat) / Delta_E s)]
  end.

(** The scalar expression both assignments of [E_alpha3] evaluate, at the
    energy index it is given. *)
Definition E_alpha3_at (s : cn_scheme) (i j : nat) : F :=
  Delta_t s * (E_prefactor s j * get2 (b s) i j / Delta_E s).

(** *** Matrix constructors *)

Definition halve_neg (a : vector F) : vector F := map (fun x => - x / of_Z 2) a.
Definition one_plus_half (a : vector F) : vector F := map (fun x => of_Z 1 + x / of_Z 2) a.
Definition one_minus_half (a : vector F) : vector F := map (fun x => of_Z 1 - x / of_Z 2) a.

(** The four diagonals after the loop [for i in range(I)]. *)
Definition loss_k_u (s : cn_scheme) : vector F :=
  let J := E_bins s in
  fold_left (fun k i => set_slice k (i * J) (halve_neg (E_alpha3 s i (removelast (np_arange J)))))
            (np_arange (r_bins s)) (np_zeros (r_bins s * J)).
Definition loss_k_mA (s : cn_scheme) : vector F :=
  let J := E_bins s in
  fold_left (fun k i => set_slice k (i * J) (one_plus_half (E_alpha2 s i (np_arange J))))
            (np_arange (r_bins s)) (np_zeros (r_bins s * J)).
Definition loss_k_mB (s : cn_scheme) : vector F :=
  let J := E_bins s in
  fold_left (fun k i => set_slice k (i * J) (one_minus_half (E_alpha2 s i (np_arange J))))
            (np_arange (r_bins s)) (np_zeros (r_bins s * J)).
Definition loss_k_l (s : cn_scheme) : vector F :=
  let J := E_bins s in
  fold_left (fun k i => set_slice k (i * J) (halve_neg (E_alpha1 s i (tl (np_arange J)))))
            (np_arange (r_bins s)) (np_zeros (r_bins s * J)).

Definition spmatrices_loss (s : cn_scheme) : sparse F * sparse F :=
  let IJ := (r_bins s * E_bins s)%nat in
  let loss_A := sparse_diags (loss_k_l s) (loss_k_mA s) (loss_k_u s) IJ in
  let loss_B := sparse_diags (map fneg (loss_k_l s)) (loss_k_mB s)
                             (map fneg (loss_k_u s)) IJ in
  (loss_A, loss_B).

Definition diff_k_u (s : cn_scheme) : vector F :=
  let I := r_bins s in
  fold_left (fun k j => set_slice k (j * I) (halve_neg (r_alpha3 s (removelast (np_arange I)) j)))
            (np_arange (E_bins s)) (np_zeros (I * E_bins s)).
Definition diff_k_mA (s : cn_scheme) : vector F :=
  let I := r_bins s in
  fold_left (fun k j => set_slice k (j * I) (one_plus_half (r_alpha2 s (np_arange I) j)))
            (np_arange (E_bins s)) (np_zeros (I * E_bins s)).
Definition diff_k_mB (s : cn_scheme) : vector F :=
  let I := r_bins s in
  fold_left (fun k j => set_slice k (j * I) (one_minus_half (r_alpha2 s (np_arange I) j)))
            (np_arange (E_bins s)) (np_zeros (I * E_bins s)).
Definition diff_k_l (s : cn_scheme) : vector F :=
  let I := r_bins s in
  fold_left (fun k j => set_slice k (j * I) (halve_neg (r_alpha1 s (tl (np_arange I)) j)))
            (np_arange (E_bins s)) (np_zeros (I * E_bins s)).

Definition spmatrices_diff (s : cn_scheme) : sparse F * sparse F :=
  let IJ := (r_bins s * E_bins s)%nat in
  let diff_A := sparse_diags (diff_k_l s) (diff_k_mA s) (diff_k_u s) IJ in
  let diff_B := sparse_diags (map fneg (diff_k_l s)) (diff_k_mB s)
                             (map fneg (diff_k_u s)) IJ in
  (diff_A, diff_B).

End Solver.

Arguments cn_scheme F : clear implicits.
Arguments loss_constants F : clear implicits.
Arguments snapshot F : clear implicits.

(** ** The Crank-Nicolson loop [cn_2D] *)

Section CN.
Context {F : Type} {AF : Arith F}.
Local Open Scope num_scope.

(** [scipy.sparse.linalg.spsolve], the library's direct solver. *)
Variable spsolve : sparse F -> vector F -> vector F.

(** The local variables of [cn_2D] together with [self]. *)
Record loop_state : Type := mk_loop {
  self : cn_scheme F;
  loss_AB : option (sparse F * sparse F);
  diff_AB : option (sparse F * sparse F);
  psi : matrix F;
  psi_prev : matrix F;
  convergence_check : bool;
  stability_check : bool;
  ts_check : bool;
  benchmark_check : bool;
  rel_diff_check : bool;
  t : nat;
  t_part : nat;
  t_elapsed : F
}.


(** [m[:-1]]: every row but the outer boundary. *)
Definition interior (m : matrix F) : matrix F := removelast m.



Definition converged (st : loop_state) : loop_state :=
  mk_loop (self st) (loss_AB st) (diff_AB st) (psi st) (psi_prev st)
          true (stability_check st) (ts_check st) (benchmark_check st)
          (rel_diff_check st) (t st) (t_part st) (t_elapsed st).

(** The accelerated method's switch: [Delta_t *= Delta_t_reduction],
    [t_part = 0] and the matrices built again. *)
Definition reduce_Delta_t (st : loop_state) (red : F) : loop_state :=
  let s' := set_Delta_t (self st) (Delta_t (self st) * red) in
  mk_loop s'
          (if in_loss_all (effect s') then Some (spmatrices_loss s') else loss_AB st)
          (if in_diffusion_all (effect s') then Some (spmatrices_diff s') else diff_AB st)
          (psi st) (psi_prev st)
          (convergence_check st) (stability_check st) (ts_check st)
          (benchmark_check st) (rel_diff_check st) (t st) 0%nat (t_elapsed st).

(** Lines 399-434: convergence and Delta_t switching.  The boolean is
    [true] when the source executes [break]. *)
Definition cn_switch (st : loop_state) : outcome (bool * loop_state) :=
  let s := self st in
  if stability_check st then
    if benchmark_flag s then
      if ts_check st && benchmark_check st then Ok (true, converged st)
      else Ok (false, st)
    else if const_Delta_t s then
      if ts_check st then Ok (true, converged st)
      else Ok (false, st)
    else
      match smallest_Delta_t s with
      | None => Raised TypeError
      | Some smallest =>
          if Delta_t s >? smallest then
            match Delta_t_reduction s with
            | None => Raised TypeError
            | Some red => Ok (false, reduce_Delta_t st red)
            end
          else if Delta_t s <? smallest then
            if ts_check st || rel_diff_check st then Ok (true, converged st)
            else Ok (false, st)
          else Ok (false, st)
      end
  else Ok (false, st).

(** The right-hand sides of the two half-steps. *)
Definition rhs_loss (s : cn_scheme F) (loss_B : sparse F) (Q psi : matrix F) : vector F :=
  map2 fadd (dot loss_B (flattenC psi))
            (map (fun q => q * Delta_t s) (flattenC Q)).

Definition rhs_diff (s : cn_scheme F) (diff_B : sparse F) (Q psi : matrix F) : vector F :=
  map2 fadd (dot diff_B (flattenF psi))
            (map (fun q => q * Delta_t s) (flattenF Q)).

Definition loss_half_step (st : loop_state) (Q psi : matrix F) : outcome (matrix F) :=
  let s := self st in
  if in_loss_all (effect s) then
    match loss_AB st with
    | Some (loss_A, loss_B) =>
        reshapeC (r_bins s) (E_bins s) (spsolve loss_A (rhs_loss s loss_B Q psi))
    | None => Raised NameError
    end
  else Ok psi.

Definition diff_half_step (st : loop_state) (Q psi : matrix F) : outcome (matrix F) :=
  let s := self st in
  if in_diffusion_all (effect s) then
    match diff_AB st with
    | Some (diff_A, diff_B) =>
        reshapeF (r_bins s) (E_bins s) (spsolve diff_A (rhs_diff s diff_B Q psi))
    | None => Raised NameError
    end
  else Ok psi.

(** [self.snapshots.append((psi.copy()[:-1], self.Delta_t))] *)
Definition store_snapshot (s : cn_scheme F) (psi : matrix F) : outcome (cn_scheme F) :=
  if animation_flag s then
    match snapshots s with
    | Some l => Ok (set_snapshots s (Some (l ++ [(interior psi, Delta_t s)])))
    | None => Raised AttributeError
    end
  else Ok s.

(** Lines 436-469: the matrix solutions, the boundary condition, the
    counters and the snapshot. *)
Definition cn_advance (Q : matrix F) (st : loop_state) : outcome loop_state :=
  let s := self st in
  let psi_prev' := psi st in
  do psi1 <- loss_half_step st Q (psi st);
  do psi2 <- diff_half_step st Q psi1;
  do psi3 <- zero_last_row psi2;
  let t_elapsed' := t_elapsed st + Delta_t s in
  do s' <- store_snapshot s psi3;
  Ok (mk_loop s' (loss_AB st) (diff_AB st) psi3 psi_prev'
              (convergence_check st) (stability_check st) (ts_check st)
              (benchmark_check st) (rel_diff_check st)
              (S (t st)) (S (t_part st)) t_elapsed').







End CN.

Arguments loop_state F : clear implicits.

(** ** The equation environment [solveElectrons] *)

Section Environment.
Context {F : Type} {AF : Arith F}.
Local Open Scope num_scope.

(** The conversion factors astropy applies in [(x*Unit(a)).to(b).value]. *)
Record unit_factors : Type := mk_units {
  Mpc_to_cm : F;
  Mpc_to_kpc : F;
  Msun_Mpc3_c2_to_GeV_cm3 : F;
  per_Mpc_to_per_cm : F;
  yr_to_s : F
}.

(** The arguments of [solveElectrons]. *)
Record solve_args : Type := mk_args {
  mx : F;
  z : F;
  E_sample : vector F;
  r_sample : vector F;
  rho_sample : vector F;
  Q_sample : vector F;
  b_sample : vector F;
  dBdr_sample : vector F;
  ne_sample : vector F;
  rScale : F;
  eScale : F;
  d0_arg : F;
  delta_arg : F;
  diff0 : F;
  lossOnly : bool;
  mode_exp : Z;
  Delta_t_min : F;
  Delta_ti_arg : F;
  max_t_part_arg : Z;
  Delta_t_reduction_arg : F
}.

(** An expression on arrays of one shape, entry by entry. *)
Definition elementwise (like : matrix F) (f : nat -> nat -> F) : matrix F :=
  map (fun i => map (fun j => f i j) (seq 0 (ncols like))) (seq 0 (nrows like)).

Definition set_D (D0 d0 delta : F) (B E : matrix F) : matrix F :=
  let alpha := of_Z 2 - delta in
  elementwise E (fun i j =>
    let B := get2 B i j in
    let E := get2 E i j in
    let D := D0 * d0 ** (of_Z 1 - alpha) * B ** (- alpha) * E ** alpha in
    let dLim := dec 1 32 * E ** alpha in
    if D >? dLim then dLim else D).

Definition set_dDdr (r_bins E_bins : nat) (logr_grid : vector F) (r0 : F)
           (D0 d0 delta : F) (B dBdr E : matrix F) : matrix F :=
  let alpha := of_Z 2 - delta in
  let pf := transpose (repeat (map (fun i => prefactor (get logr_grid i) r0)
                                   (np_arange r_bins)) E_bins) in
  elementwise E (fun i j =>
    let pf := get2 pf i j in
    let B := get2 B i j in
    let dBdr := get2 dBdr i j in
    let E := get2 E i j in
    - (of_Z 1 / pf * D0 * alpha) * d0 ** (of_Z 1 - alpha)
      * B ** (- alpha - of_Z 1) * dBdr * E ** alpha).

Definition me : F := dec 511 (-6).

Definition set_b (c : loss_constants F) (B ne E : matrix F) : matrix F :=
  elementwise E (fun i j =>
    let B := get2 B i j in
    let ne := get2 ne i j in
    let E := get2 E i j in
    ICISRF c * E ^ 2 + sync c * E ^ 2 * B ^ 2
    + coul c * ne * (of_Z 1 + fln (E / (me * ne)) / of_Z 75)
    + brem c * ne * E).

Definition make_constants (z : F) : loss_constants F :=
  mk_constants (dec 608 (-18) + dec 25 (-18) * (of_Z 1 + z) ^ 4)
               (dec 25 (-18) * (of_Z 1 + z) ^ 4)
               (dec 254 (-20)) (dec 613 (-18)) (dec 47 (-17)).

(** Lines 49-125: the constructor's flags, then everything up to the call
    of [cn_2D]. *)
Definition solveElectrons_env (benchmark_flag const_Delta_t animation_flag : bool)
           (u : unit_factors) (a : solve_args) : outcome (cn_scheme F) :=
  let effect := if lossOnly a then Loss else All in
  let r_bins := length (r_sample a) in
  let E_bins := length (E_sample a) in
  let r_grid := map (fun r => r * Mpc_to_cm u) (r_sample a) in
  let E_grid := E_sample a in
  let d0 := d0_arg a * Mpc_to_kpc u in
  let D0 := diff0 a in
  let r0 := rScale a * Mpc_to_cm u in
  let E0 := eScale a in
  let logr_grid := map (fun r => flog10 (r / r0)) r_grid in
  let logE_grid := map (fun E => flog10 (E / E0)) E_grid in
  let constants := make_constants (z a) in
  let rho := map (fun x => x * Msun_Mpc3_c2_to_GeV_cm3 u) (rho_sample a) in
  let dBdr := map (fun x => x * per_Mpc_to_per_cm u) (dBdr_sample a) in
  do _ <- nonzero_divisor (mode_exp a);
  let rho_tens := tensordot rho (ones_like E_grid) in
  let Q_tens := tensordot (ones_like rho) (Q_sample a) in
  let Q := elementwise rho_tens (fun i j =>
             of_Z 1 / of_Z (mode_exp a)
             * (get2 rho_tens i j / mx a) ^ mode_exp a
             * get2 Q_tens i j) in
  let Etens := tensordot (np_ones r_bins) E_grid in
  let Btens := tensordot (b_sample a) (np_ones E_bins) in
  let netens := tensordot (ne_sample a) (np_ones E_bins) in
  let dBdrtens := tensordot dBdr (np_ones E_bins) in
  let D := set_D D0 d0 (delta_arg a) Btens Etens in
  let dDdr := set_dDdr r_bins E_bins logr_grid r0 D0 d0 (delta_arg a)
                       Btens dBdrtens Etens in
  let b := set_b constants Btens netens Etens in
  let loss_ts := elementwise b (fun i j => get E_grid j / get2 b i j) in
  do r1 <- index r_grid 1;
  do r0' <- index r_grid 0;
  let diff_ts := mmap (fun d => (r1 - r0') ^ 2 / d) D in
  let loss_min := np_min (flattenC loss_ts) in
  let diff_min := np_min (flattenC diff_ts) in
  do lr1 <- index logr_grid 1;
  do lr0 <- index logr_grid 0;
  let Delta_r := lr1 - lr0 in
  do lE1 <- index logE_grid 1;
  do lE0 <- index logE_grid 0;
  let Delta_E := lE1 - lE0 in
  let const_Delta_t := if benchmark_flag then true else const_Delta_t in
  let Delta_ti :=
    if const_Delta_t then
      match effect with
      | Loss => loss_min
      | Diffusion => diff_min
      | All => np_min [loss_min; diff_min]
      end
    else Delta_ti_arg a * yr_to_s u in
  let smallest_Delta_t :=
    if const_Delta_t then None else Some (Delta_t_min a * yr_to_s u) in
  let max_t_part := if const_Delta_t then None else Some (max_t_part_arg a) in
  let Delta_t_reduction :=
    if const_Delta_t then None else Some (Delta_t_reduction_arg a) in
  let stability_factor := if benchmark_flag then dec 1 (-1) else of_Z 1 in
  let adi_factor := match effect with All => dec 5 (-1) | _ => of_Z 1 end in
  let Delta_t := Delta_ti * adi_factor * stability_factor in
  Ok (mk_cn_scheme effect Q None r_bins E_bins r_grid E_grid r0 E0
                   logr_grid logE_grid D dDdr b constants Delta_r Delta_E
                   Delta_t Delta_ti loss_ts diff_ts benchmark_flag const_Delta_t
                   smallest_Delta_t max_t_part Delta_t_reduction animation_flag
                   None).

Variable spsolve : sparse F -> vector F -> vector F.


End Environment.

Arguments unit_factors F : clear implicits.
Arguments solve_args F : clear implicits.

(** ** Invariants of the loop *)

Section Invariants.
Context {F : Type} {AF : Arith F}.

(** What the body of the loop needs of the state to run through: the
    attributes the accelerated method reads are set, the snapshot list
    exists when animation is on, and the matrices of the active effects are
    built, of order I*J. *)
Definition loop_inv (I J : nat) (st : loop_state F) : Prop :=
  r_bins (self st) = I /\ E_bins (self st) = J /\
  (const_Delta_t (self st) = false ->
   max_t_part (self st) <> None /\ smallest_Delta_t (self st) <> None /\
   Delta_t_reduction (self st) <> None) /\
  (animation_flag (self st) = true -> snapshots (self st) <> None) /\
  (in_loss_all (effect (self st)) = true ->
   exists A B : sparse F, loss_AB st = Some (A, B) /\
               sp_n A = (I * J)%nat /\ sp_n B = (I * J)%nat) /\
  (in_diffusion_all (effect (self st)) = true ->
   exists A B : sparse F, diff_AB st = Some (A, B) /\
               sp_n A = (I * J)%nat /\ sp_n B = (I * J)%nat).









(** Every solve returns as many unknowns as the system has. *)
Definition solver_ok (spsolve : sparse F -> vector F -> vector F) : Prop :=
  forall A rhs, length rhs = sp_n A -> length (spsolve A rhs) = sp_n A.

(** The sample arrays of [solveElectrons] agree in length, two nodes or
    more on each axis. *)
Definition valid_input (a : solve_args F) : Prop :=
  (2 <= length (r_sample a))%nat /\ (2 <= length (E_sample a))%nat /\
  length (rho_sample a) = length (r_sample a) /\
  length (Q_sample a) = length (E_sample a) /\
  length (b_sample a) = length (r_sample a) /\
  length (dBdr_sample a) = length (r_sample a) /\
  length (ne_sample a) = length (r_sample a).

End Invariants.

(** ** The real numbers as a carrier *)

Definition Rltb (x y : R) : bool := if Rlt_dec x y then true else false.
Definition Reqb (x y : R) : bool := if Req_dec_T x y then true else false.

#[export] Instance R_arith : Arith R := {|
  of_Z := IZR;
  dec := fun m e => (IZR m * powerRZ 10 e)%R;
  fadd := Rplus;
  fsub := Rminus;
  fmul := Rmult;
  fdiv := Rdiv;
  fneg := Ropp;
  fabs := Rabs;
  fpowi := powerRZ;
  fpow := Rpower;
  fln := ln;
  flog10 := fun x => (ln x / ln 10)%R;
  fmin := Rmin;
  fltb := Rltb;
  feqb := Reqb
|}.

(** ** Binary64 floats as a carrier

    The arithmetic is that of the primitive floats (IEEE 754 binary64, round
    to nearest even); integer powers are repeated products; [pow], [log]
    and [log10] of the C library are fields of [libm]. *)













(** ** The coefficients as the specification words them *)

Section SpecFormulae.
Local Open Scope R_scope.

Definition ln10 : R := ln 10.

(** xi_i = 1/(10^{rho_i} ln10 r0) and eta_j = 1/(10^{eps_j} ln10 E0). *)
Definition xi (s : cn_scheme R) (i : nat) : R :=
  1 / (Rpower 10 (get (logr_grid s) i) * ln10 * r0 s).
Definition eta (s : cn_scheme R) (j : nat) : R :=
  1 / (Rpower 10 (get (logE_grid s) j) * ln10 * E0 s).

Definition spec_alpha1_r (s : cn_scheme R) (i j : nat) : R :=
  Delta_t s * (xi s i)² *
  (- (ln10 * get2 (D s) i j + get2 (dDdr s) i j) / (2 * Delta_r s)
   + get2 (D s) i j / (Delta_r s)²).

Definition spec_alpha3_r (s : cn_scheme R) (i j : nat) : R :=
  Delta_t s * (xi s i)² *
  ((ln10 * get2 (D s) i j + get2 (dDdr s) i j) / (2 * Delta_r s)
   + get2 (D s) i j / (Delta_r s)²).

(** What the source evaluates: [np.log10(10)] where the formula has ln10. *)
Definition code_alpha1_r (s : cn_scheme R) (i j : nat) : R :=
  Delta_t s * (xi s i)² *
  (- (1 * get2 (D s) i j + get2 (dDdr s) i j) / (2 * Delta_r s)
   + get2 (D s) i j / (Delta_r s)²).

Definition code_alpha3_r (s : cn_scheme R) (i j : nat) : R :=
  Delta_t s * (xi s i)² *
  ((1 * get2 (D s) i j + get2 (dDdr s) i j) / (2 * Delta_r s)
   + get2 (D s) i j / (Delta_r s)²).

Definition spec_alpha3_E (s : cn_scheme R) (i j : nat) : R :=
  Delta_t s * eta s (j + 1) * get2 (b s) i (j + 1) / Delta_E s.

End SpecFormulae.

(** ** A two-by-two grid over the reals *)

Section Examples.
Local Open Scope R_scope.

(** rho = (-1, 0), eps = (0, 1), unit scales and steps, D = 1, dDdr = 0,
    b = 1 at E_0 and b = 20 at E_1. *)
Definition ex_grid (eff : effect_kind) (bench const anim : bool)
           (dt : R) (smallest : option R) : cn_scheme R :=
  mk_cn_scheme eff [[1; 1]; [1; 1]] None 2 2 [1 / 10; 1] [1; 10] 1 1
               [-1; 0] [0; 1]
               [[1; 1]; [1; 1]] [[0; 0]; [0; 0]] [[1; 20]; [1; 20]]
               (mk_constants 0 0 0 0 0) 1 1 dt dt
               [[1; 1 / 2]; [1; 1 / 2]] [[1; 1]; [1; 1]]
               bench const smallest
               (if const then None else Some 100%Z)
               (if const then None else Some (1 / 2))
               anim None.

Definition ex_accel : cn_scheme R := ex_grid All false false false 1 (Some 1).

(** Loop states of the accelerated method on that grid, third iteration
    or later, [t_part] past [max_t_part], every check satisfied. *)
Definition ex_state (s : cn_scheme R) : loop_state R :=
  mk_loop s (Some (spmatrices_loss s)) (Some (spmatrices_diff s))
          [[1; 1]; [0; 0]] [[1; 1]; [0; 0]]
          false true true false true 200 101 0.

(** Delta_t = 2 yr-units above the smallest value 1, and Delta_t equal to it. *)
Definition ex_above : loop_state R :=
  ex_state (ex_grid All false false false 2 (Some 1)).
Definition ex_at_min : loop_state R := ex_state ex_accel.
Definition ex_below : loop_state R :=
  ex_state (ex_grid All false false false (1 / 2) (Some 1)).

(** Arguments of [solveElectrons] for a two-by-two grid, and a stand-in for
    the library solver: the solution of the system whose matrix is the
    identity. *)
Definition ex_units : unit_factors R := mk_units 1 1 1 1 1.

Definition ex_args (loss_only : bool) : solve_args R :=
  mk_args 100 0 [1; 10] [1 / 10; 1] [1; 1] [1; 1] [1; 1] [0; 0] [1; 1]
          1 1 1 (1 / 3) 1 loss_only 2 1 4 100 (1 / 2).

Definition ex_solve (A : sparse R) (rhs : vector R) : vector R := rhs.


End Examples.

(** ** What a run may change, and when it may stop *)

Section RunProperties.
Context {F : Type} {AF : Arith F}.
Local Open Scope num_scope.





(** An object as [solveElectrons] builds it: at least two points on each
    axis, the transformed grids as long as the axes, and the coefficient
    arrays of the grid's shape.  On such an object the matrix constructors
    index inside their arrays and pass non-empty index arrays on. *)
Definition grids_ok (s : cn_scheme F) : Prop :=
  (2 <= r_bins s)%nat /\ (2 <= E_bins s)%nat /\
  length (logr_grid s) = r_bins s /\ length (logE_grid s) = E_bins s /\
  has_shape (r_bins s) (E_bins s) (D s) /\
  has_shape (r_bins s) (E_bins s) (dDdr s) /\
  has_shape (r_bins s) (E_bins s) (b s).


End RunProperties.

(** * [wimp_tools/cosmology.py]: the scalar cosmology helpers

    The functions are embedded over the real numbers: [np.sqrt], [np.log],
    [np.arctan] and [np.pi] are [sqrt], [ln], [atan] and [PI]; a power
    with a float exponent is [Rpower], a power with an integer literal as
    exponent is [^] or [powerRZ].  [cos_env] is read through its three
    attributes.  The library routines [scipy.integrate.quad] and
    [tools.Integrate] are parameters of the functions that call them. *)

Module Cosmology.
Local Open Scope R_scope.
Local Abbreviation sqrt := R_sqrt.sqrt.

Record cosmology_env : Type := mk_cosmology {
  w_m : R;
  w_l : R;
  h : R
}.



(** 1.0/Hubble parameter at z. *)
Definition hubble_z (z : R) (cos_env : cosmology_env) : R :=
  let H0 := 100.0 in
  let w_k := 1 - w_m cos_env - w_l cos_env in
  powerRZ (H0 * h cos_env
           * sqrt (w_m cos_env * (1.0 + z) ^ 3 + w_k * (1 + z) ^ 2 + w_l cos_env))
          (-1).

Definition rho_crit (z : R) (cos_env : cosmology_env) : R :=
  1e9 * 2.7755e-2 / hubble_z z cos_env ^ 2.

Definition omega_m (z : R) (cos_env : cosmology_env) : R :=
  1.0 / (1.0 + (1.0 - w_m cos_env) / w_m cos_env / (1 + z) ^ 3).

Definition delta_c (z : R) (cos_env : cosmology_env) : R :=
  let x := 1.0 - omega_m z cos_env in
  (18.0 * PI ^ 2 - 82.0 * x - 39.0 * x ^ 2) / omega_m z cos_env.



(** Linear growth factor at z: Einstein-de Sitter, open without Lambda,
    flat with Lambda, and 1.0 in every other cosmology. *)
Definition glinear (z : R) (cos_env : cosmology_env) : R :=
  if Reqb (w_l cos_env) 0.0 && Reqb (w_m cos_env) 1.0 then
    powerRZ (1 + z) (-1)
  else if Rltb (w_m cos_env) 1.0 && Reqb (w_l cos_env) 0.0 then
    let x0 := 1.0 / w_m cos_env - 1 in
    let x := x0 / (1 + z) in
    let Ax := 1 + 3 / x
              + 3 * sqrt (1 + x) / Rpower x 1.5 * ln (sqrt (1 + x) - sqrt x) in
    let Ax0 := 1 + 3 / x0
               + 3 * sqrt (1 + x0) / Rpower x0 1.5 * ln (sqrt (1 + x0) - sqrt x0) in
    Ax / Ax0
  else if Rltb 0 (w_l cos_env) && Reqb (w_l cos_env) (1.0 - w_m cos_env) then
    let om := omega_m z cos_env in
    let om0 := omega_m 0.0 cos_env in
    let ol := 1.0 - om in
    let ol0 := 1.0 - om0 in
    let N := 2.5 * om0
             * powerRZ (Rpower om0 (4.0 / 7) - ol0
                        + (1 + 0.5 * om0) * (1 + 1.0 / 70 * ol0)) (-1) in
    2.5 * om
    * powerRZ (Rpower om (4.0 / 7) - ol + (1 + 0.5 * om) * (1 + 1.0 / 70 * ol)) (-1)
    / (1 + z) / N
  else 1.0.



Definition rvir (M z : R) (cos_env : cosmology_env) : R :=
  Rpower (0.75 * M / (PI * delta_c z cos_env * rho_crit z cos_env)) (1.0 / 3.0).

Definition mvir_from_rvir (r z : R) (cos_env : cosmology_env) : R :=
  4 * PI / 3.0 * delta_c z cos_env * rho_crit z cos_env * r ^ 3.

Definition rvir_ps (M z : R) (cos_env : cosmology_env) : R :=
  Rpower (0.75 * M / (PI * omega_m z cos_env * rho_crit z cos_env)) (1.0 / 3.0).

Definition omega_m_lahav (z : R) (cos_env : cosmology_env) : R :=
  w_m cos_env
  * powerRZ (w_m cos_env * (1 + z) ^ 3
             - (w_m cos_env + w_l cos_env - 1.0) * (1 + z) ^ 2 + w_l cos_env) (-2)
  * (1 + z) ^ 3.





Section Library.

(** [quad(f, a, b)[0]] and [tools.Integrate(y, x)]. *)
Variable quad : (R -> R) -> R -> R -> R.
Variable Integrate : list R -> list R -> R.








End Library.

End Cosmology.

(** Example cosmologies: the default parameters of [check_cosmology]
    (flat), one with curvature, and a one-point rule standing in for
    [quad]. *)
Section CosmologyExamples.
Local Open Scope R_scope.

Definition ex_cosmo : Cosmology.cosmology_env :=
  Cosmology.mk_cosmology 0.3089 0.6911 0.6774.



End CosmologyExamples.

(** * [dark_matters/dictionary_checks.py]: the checks of the cosmology and
      diffusion dictionaries

    A dictionary is the list of its items in insertion order.  The values
    are the scalars a YAML input file gives: None, booleans, integers,
    floats and strings.  [fatal_error] (module [output]) ends the program:
    the outcome [Exits]. *)

Module DictionaryChecks.
Import String.StringSyntax.
Local Open Scope string_scope.

Section Checks.
Context {F : Type} {AF : Arith F}.
Local Open Scope num_scope.

Inductive value : Type :=
| VNone
| VBool (b : bool)
| VInt (n : Z)
| VFloat (x : F)
| VStr (s : String.string).

Definition dict : Type := list (String.string * value).

Inductive error : Type := KeyErr | TypeErr.

Inductive checked (A : Type) : Type :=
| Returns (a : A)
| Exits
| Raises (e : error).
Arguments Returns {A} a.
Arguments Exits {A}.
Arguments Raises {A} e.

(** [k in d.keys()], [d[k]] and [d[k] = v]. *)
Fixpoint lookup (d : dict) (k : String.string) : option value :=
  match d with
  | [] => None
  | (k', v) :: r => if String.eqb k' k then Some v else lookup r k
  end.

Definition has_key (d : dict) (k : String.string) : bool :=
  match lookup d k with Some _ => true | None => false end.

Definition getitem (d : dict) (k : String.string) : checked value :=
  match lookup d k with Some v => Returns v | None => Raises KeyErr end.

Fixpoint setitem (d : dict) (k : String.string) (v : value) : dict :=
  match d with
  | [] => [(k, v)]
  | (k', v') :: r =>
      if String.eqb k' k then (k, v) :: r else (k', v') :: setitem r k v
  end.

(** [1 - v]: int for int and bool operands, float for a float, TypeError
    for None and strings. *)
Definition one_minus (v : value) : checked value :=
  match v with
  | VInt n => Returns (VInt (1 - n)%Z)
  | VBool b => Returns (VInt (1 - Z.b2z b)%Z)
  | VFloat x => Returns (VFloat (of_Z 1 - x))
  | VNone | VStr _ => Raises TypeErr
  end.

(** The truth value of [v] in [if v:]. *)
Definition truthy (v : value) : bool :=
  match v with
  | VNone => false
  | VBool b => b
  | VInt n => negb (Z.eqb n 0)
  | VFloat x => negb (x ==? of_Z 0)
  | VStr s => negb (String.eqb s String.EmptyString)
  end.

Definition cvir_modes : list String.string :=
  ["p12"; "munoz_2010"; "bullock_2001"; "cpu_2006"].

(** [v in cvir_modes] *)
Definition is_cvir_mode (v : value) : bool :=
  match v with
  | VStr s => existsb (String.eqb s) cvir_modes
  | _ => false
  end.

(** Lines 29-35: the density parameters. *)
Definition complete_omegas (cosmo_dict : dict) : checked dict :=
  if negb (has_key cosmo_dict "omega_m") && negb (has_key cosmo_dict "omega_l") then
    let d := setitem cosmo_dict "omega_m" (VFloat (dec 3089 (-4))) in
    match getitem d "omega_m" with
    | Returns m =>
        match one_minus m with
        | Returns l => Returns (setitem d "omega_l" l)
        | Exits => Exits
        | Raises e => Raises e
        end
    | Exits => Exits
    | Raises e => Raises e
    end
  else if negb (has_key cosmo_dict "omega_m") then
    match getitem cosmo_dict "omega_l" with
    | Returns l =>
        match one_minus l with
        | Returns m => Returns (setitem cosmo_dict "omega_m" m)
        | Exits => Exits
        | Raises e => Raises e
        end
    | Exits => Exits
    | Raises e => Raises e
    end
  else if negb (has_key cosmo_dict "omega_l") then
    match getitem cosmo_dict "omega_m" with
    | Returns m =>
        match one_minus m with
        | Returns l => Returns (setitem cosmo_dict "omega_l" l)
        | Exits => Exits
        | Raises e => Raises e
        end
    | Exits => Exits
    | Raises e => Raises e
    end
  else Returns cosmo_dict.

(** Lines 36-43: the concentration mode and h. *)
Definition complete_mode_and_h (cosmo_dict : dict) : checked dict :=
  let d := if negb (has_key cosmo_dict "cvir_mode")
           then setitem cosmo_dict "cvir_mode" (VStr "p12") else cosmo_dict in
  match getitem d "cvir_mode" with
  | Returns mode =>
      if negb (is_cvir_mode mode) then Exits
      else
        let d := if negb (has_key d "h")
                 then setitem d "h" (VFloat (dec 6774 (-4))) else d in
        Returns d
  | Exits => Exits
  | Raises e => Raises e
  end.

Definition check_cosmology (cosmo_dict : dict) : checked dict :=
  match complete_omegas cosmo_dict with
  | Returns d => complete_mode_and_h d
  | Exits => Exits
  | Raises e => Raises e
  end.

Definition check_diffusion (diff_dict : dict) : checked dict :=
  let d := diff_dict in
  let d := if negb (has_key d "loss_only")
           then setitem d "loss_only" (VBool false) else d in
  let d := if negb (has_key d "photon_density")
           then setitem d "photon_density" (VFloat (of_Z 0)) else d in
  let d := if negb (has_key d "photon_temp")
           then setitem d "photon_temp" (VFloat (dec 27255 (-4))) else d in
  let d := if negb (has_key d "diff_rmax")
           then setitem d "diff_rmax" (VStr "2*Rvir") else d in
  match getitem d "loss_only" with
  | Returns lo =>
      if truthy lo then Returns (setitem d "diff_constant" (VFloat (of_Z 0)))
      else
        let d := if negb (has_key d "diff_constant")
                 then setitem d "diff_constant" (VFloat (dec 3 28)) else d in
        let d := if negb (has_key d "diff_index")
                 then setitem d "diff_index" (VFloat (of_Z 1 / of_Z 3)) else d in
        Returns d
  | Exits => Exits
  | Raises e => Raises e
  end.

(** The operands [1 - v] accepts. *)
Definition is_number (v : value) : bool :=
  match v with
  | VInt _ | VBool _ | VFloat _ => true
  | VNone | VStr _ => false
  end.

(** A density parameter given alone is a number. *)
Definition omegas_ok (d : dict) : bool :=
  match lookup d "omega_m", lookup d "omega_l" with
  | None, Some v => is_number v
  | Some v, None => is_number v
  | _, _ => true
  end.

(** A concentration mode that is given is one of [cvir_modes]. *)
Definition mode_ok (d : dict) : bool :=
  match lookup d "cvir_mode" with
  | Some v => is_cvir_mode v
  | None => true
  end.

End Checks.

Arguments Returns {A} a.
Arguments Exits {A}.
Arguments Raises {A} e.
Arguments value F : clear implicits.
Arguments dict F : clear implicits.

End DictionaryChecks.

(** A cosmology dictionary that gives omega_l and h, and what
    [check_cosmology] makes of it. *)
Section DictionaryExamples.
Import DictionaryChecks.
Import String.StringSyntax.
Local Open Scope string_scope.
Local Open Scope R_scope.

Definition ex_cosmo_dict : dict R :=
  [("omega_l", VFloat 0.7); ("h", VFloat 0.7)].

Definition ex_cosmo_checked : dict R :=
  [("omega_l", VFloat 0.7); ("h", VFloat 0.7);
   ("omega_m", VFloat (1 - 0.7)); ("cvir_mode", VStr "p12")].

End DictionaryExamples.

(** ** Inputs on which real arithmetic follows the program

    Positive energies, densities and fields, a positive [d0] and [diff0],
    and a positive Coulomb bracket: then no logarithm, power or quotient of
    the setup is taken at zero, where binary64 gives an infinity or a NaN
    and the reals do not. *)
Section PositiveRegime.
Local Open Scope R_scope.

Definition positive_regime (u : unit_factors R) (a : solve_args R) : Prop :=
  Forall (fun E => 0 < E) (E_sample a) /\
  Forall (fun n => 0 < n) (ne_sample a) /\
  Forall (fun B => 0 < B) (b_sample a) /\
  0 < d0_arg a * Mpc_to_kpc u /\ 0 < diff0 a /\
  forall n E, In n (ne_sample a) -> In E (E_sample a) ->
              0 < 1 + ln (E / (me * n)%num) / 75.

End PositiveRegime.

(** ** The states a run goes through *)

Section Trace.
Context {F : Type} {AF : Arith F}.
Variable spsolve : sparse F -> vector F -> vector F.



End Trace.

(** * Properties *)

(** ** Lists and arrays *)

Section ArrayFacts.
Context {F : Type} {AF : Arith F}.

Lemma get_map_seq (f : nat -> F) (n k : nat) :
  (k < n)%nat -> get (map f (seq 0 n)) k = f k.
Proof.
  intros Hk. unfold get.
  rewrite (nth_indep _ zero (f 0%nat)) by (rewrite length_map, length_seq; exact Hk).
  rewrite (map_nth f (seq 0 n) 0%nat k), seq_nth by exact Hk. reflexivity.
Qed.

Lemma get_map (A : Type) (f : A -> F) (l : list A) (d : A) (k : nat) :
  (k < length l)%nat -> get (map f l) k = f (nth k l d).
Proof.
  intros Hk. unfold get.
  rewrite (nth_indep _ zero (f d)) by (rewrite length_map; exact Hk).
  apply map_nth.
Qed.

Lemma length_np_zeros (n : nat) : length (np_zeros n) = n.
Proof. apply repeat_length. Qed.

Lemma get_np_zeros (n k : nat) : get (np_zeros n) k = zero.
Proof.
  unfold get, np_zeros. revert k.
  induction n as [|n IH]; intros [|k]; simpl; auto.
Qed.

Lemma get_app_l (a c : vector F) (k : nat) :
  (k < length a)%nat -> get (a ++ c) k = get a k.
Proof. intros Hk. unfold get. apply app_nth1. exact Hk. Qed.

Lemma get_app_r (a c : vector F) (k : nat) :
  (length a <= k)%nat -> get (a ++ c) k = get c (k - length a).
Proof. intros Hk. unfold get. apply app_nth2. lia. Qed.

Lemma removelast_seq (n : nat) : removelast (seq 0 (S n)) = seq 0 n.
Proof. rewrite seq_S. apply removelast_last. Qed.

Lemma last_seq (n d : nat) : last (seq 0 (S n)) d = n.
Proof. rewrite seq_S. apply last_last. Qed.

Lemma skipn_np_zeros (k n : nat) : skipn k (np_zeros n) = np_zeros (n - k).
Proof.
  unfold np_zeros. revert k.
  induction n as [|n IH]; intros [|k]; simpl; auto.
Qed.

(** Entry (i,j) of a list of blocks of one length, laid end to end. *)
Lemma get_concat_blocks (J : nat) (bl : list (vector F)) (i j : nat) :
  Forall (fun x => length x = J) bl ->
  (i < length bl)%nat -> (j < J)%nat ->
  get (concat bl) (i * J + j) = get (nth i bl []) j.
Proof.
  intros Hall. revert i. induction Hall as [|x bl Hx Hall IH]; intros i Hi Hj.
  - simpl in Hi. lia.
  - simpl in Hi. destruct i as [|i]; simpl.
    + apply get_app_l. lia.
    + rewrite get_app_r by lia. rewrite Hx.
      replace (J + i * J + j - J)%nat with (i * J + j)%nat by lia.
      apply IH; lia.
Qed.

Lemma length_concat_blocks (J : nat) (bl : list (vector F)) :
  Forall (fun x => length x = J) bl -> length (concat bl) = (length bl * J)%nat.
Proof.
  induction 1 as [|x bl Hx Hall IH]; simpl; [reflexivity|].
  rewrite length_app, IH, Hx. reflexivity.
Qed.

(** The loops of the matrix constructors: block i of the diagonal receives
    the L values [f i], and what is left of the block stays zero. *)
Lemma fill_blocks_prefix (J L : nat) (f : nat -> vector F) (I n : nat) :
  (forall i, length (f i) = L) -> (L <= J)%nat -> (n <= I)%nat ->
  fold_left (fun k i => set_slice k (i * J) (f i)) (seq 0 n) (np_zeros (I * J))
  = concat (map (fun i => f i ++ np_zeros (J - L)) (seq 0 n))
    ++ np_zeros ((I - n) * J).
Proof.
  intros Hf HL. induction n as [|n IH]; intros Hn.
  - simpl. rewrite Nat.sub_0_r. reflexivity.
  - rewrite seq_S, fold_left_app, IH by lia. simpl fold_left.
    set (C := concat (map (fun i => f i ++ np_zeros (J - L)) (seq 0 n))).
    assert (HC : length C = (n * J)%nat).
    { unfold C. rewrite (@length_concat_blocks J).
      - rewrite length_map, length_seq. reflexivity.
      - apply Forall_forall. intros x Hx. apply in_map_iff in Hx.
        destruct Hx as [i [<- _]].
        rewrite length_app, Hf, length_np_zeros. lia. }
    unfold set_slice.
    rewrite firstn_app, <- HC, firstn_all, Nat.sub_diag, firstn_O, app_nil_r.
    rewrite skipn_app, skipn_all2 by lia.
    replace (length C + length (f n) - length C)%nat with L
      by (rewrite Hf; lia).
    rewrite skipn_np_zeros, map_app, concat_app. simpl. rewrite app_nil_r.
    fold C. rewrite <- !app_assoc. f_equal. f_equal.
    unfold np_zeros. rewrite <- repeat_app. f_equal. nia.
Qed.

Lemma fill_blocks (J L : nat) (f : nat -> vector F) (I : nat) :
  (forall i, length (f i) = L) -> (L <= J)%nat ->
  fold_left (fun k i => set_slice k (i * J) (f i)) (seq 0 I) (np_zeros (I * J))
  = concat (map (fun i => f i ++ np_zeros (J - L)) (seq 0 I)).
Proof.
  intros Hf HL. rewrite (@fill_blocks_prefix J L f I I) by auto.
  rewrite Nat.sub_diag. simpl. apply app_nil_r.
Qed.

Lemma get_fill_blocks (J L : nat) (f : nat -> vector F) (I i j : nat) :
  (forall i, length (f i) = L) -> (L <= J)%nat -> (i < I)%nat -> (j < L)%nat ->
  get (fold_left (fun k i => set_slice k (i * J) (f i)) (seq 0 I) (np_zeros (I * J)))
      (i * J + j)
  = get (f i) j.
Proof.
  intros Hf HL Hi Hj. rewrite (@fill_blocks J L) by auto.
  rewrite (@get_concat_blocks J).
  - rewrite (nth_indep _ [] ((fun i => f i ++ np_zeros (J - L)) 0%nat))
      by (rewrite length_map, length_seq; exact Hi).
    rewrite (map_nth (fun i => f i ++ np_zeros (J - L))), seq_nth by exact Hi.
    simpl. apply get_app_l. rewrite Hf. exact Hj.
  - apply Forall_forall. intros x Hx. apply in_map_iff in Hx.
    destruct Hx as [i' [<- _]]. rewrite length_app, Hf, length_np_zeros. lia.
  - rewrite length_map, length_seq. exact Hi.
  - lia.
Qed.

End ArrayFacts.

(** ** Real arithmetic *)

Section RealFacts.
Local Open Scope R_scope.

Lemma ln10_gt_1 : 1 < ln 10.
Proof.
  rewrite <- (ln_exp 1) at 1. apply ln_increasing.
  - apply exp_pos.
  - pose proof exp_le_3. lra.
Qed.

Lemma ln10_pos : 0 < ln 10.
Proof. pose proof ln10_gt_1. lra. Qed.

Lemma log10_10 : flog10 (of_Z 10) = 1.
Proof. cbn. pose proof ln10_pos. field. lra. Qed.

Lemma prefactor_R (x scale : R) :
  prefactor x scale = 1 / (Rpower 10 x * ln10 * scale).
Proof.
  unfold prefactor, ln10. cbn. change (Pos.to_nat 1) with 1%nat.
  rewrite pow_1. unfold Rdiv. lra.
Qed.

Lemma sqr_R (x : R) : fpowi x 2 = x².
Proof. cbn. change (Pos.to_nat 2) with 2%nat. unfold Rsqr. simpl. lra. Qed.

End RealFacts.

(** ** Radial stencil coefficients *)

Section RadialCoefficients.
Local Open Scope R_scope.

Lemma r_prefactor_xi (s : cn_scheme R) (i : nat) : r_prefactor s i = xi s i.
Proof. unfold r_prefactor, xi. apply prefactor_R. Qed.

Lemma E_prefactor_eta (s : cn_scheme R) (j : nat) : E_prefactor s j = eta s j.
Proof. unfold E_prefactor, eta. apply prefactor_R. Qed.

(** Every entry of [r_alpha1] is the formula with the factor
    [np.log10(10) = 1] on D. *)
Lemma r_alpha1_entry (s : cn_scheme R) (idx : list nat) (j k : nat) :
  (k < length idx)%nat ->
  get (r_alpha1 s idx j) k = code_alpha1_r s (nth k idx 0%nat) j.
Proof.
  intros Hk. unfold r_alpha1. rewrite (get_map _ idx 0%nat) by exact Hk.
  rewrite log10_10, sqr_R, r_prefactor_xi. unfold code_alpha1_r.
  rewrite sqr_R. reflexivity.
Qed.

(** So is every entry of [r_alpha3] past the first. *)
Lemma r_alpha3_entry (s : cn_scheme R) (idx : list nat) (j k : nat) :
  (k < length idx)%nat -> (1 <= k)%nat ->
  get (r_alpha3 s idx j) k = code_alpha3_r s (nth k idx 0%nat) j.
Proof.
  intros Hk Hk1. destruct idx as [|i0 idx]; [simpl in Hk; lia|].
  destruct k as [|k]; [lia|]. simpl in Hk. unfold r_alpha3.
  change (get (?x :: ?l) (S k)) with (get l k).
  rewrite (get_map _ idx 0%nat) by lia.
  rewrite log10_10, sqr_R, r_prefactor_xi. unfold code_alpha3_r.
  rewrite sqr_R. reflexivity.
Qed.

Lemma xi_ex_accel_1 : xi ex_accel 1 = / ln 10.
Proof.
  unfold xi, ln10. cbn. rewrite Rpower_O by lra.
  pose proof ln10_pos. field. lra.
Qed.

(** C1, at the grid [ex_accel], radius index 1 and energy index 0: the
    entries that [spmatrices_diff] reads from [r_alpha1] and [r_alpha3]
    carry 1*D where the formula of the claim carries ln10*D, and the two
    values differ. *)
Theorem C1_r_alpha_uses_log10_of_10 :
  get (r_alpha1 ex_accel (tl (np_arange 2)) 0) 0 = / (ln 10)² * (1 / 2) /\
  spec_alpha1_r ex_accel 1 0 = / (ln 10)² * (1 - ln 10 / 2) /\
  get (r_alpha3 ex_accel (np_arange 2) 0) 1 = / (ln 10)² * (3 / 2) /\
  spec_alpha3_r ex_accel 1 0 = / (ln 10)² * (1 + ln 10 / 2) /\
  get (r_alpha1 ex_accel (tl (np_arange 2)) 0) 0 <> spec_alpha1_r ex_accel 1 0 /\
  get (r_alpha3 ex_accel (np_arange 2) 0) 1 <> spec_alpha3_r ex_accel 1 0.
Proof.
  pose proof ln10_gt_1 as Hln.
  assert (Hinv : 0 < / (ln 10)²).
  { apply Rinv_0_lt_compat. unfold Rsqr. nra. }
  assert (H1 : get (r_alpha1 ex_accel (tl (np_arange 2)) 0) 0
               = / (ln 10)² * (1 / 2)).
  { rewrite r_alpha1_entry by (simpl; lia).
    change (nth 0 (tl (np_arange 2)) 0%nat) with 1%nat. unfold code_alpha1_r.
    rewrite xi_ex_accel_1. cbn. unfold Rsqr. field. lra. }
  assert (H2 : spec_alpha1_r ex_accel 1 0 = / (ln 10)² * (1 - ln 10 / 2)).
  { unfold spec_alpha1_r. rewrite xi_ex_accel_1. unfold ln10. cbn.
    unfold Rsqr. field. lra. }
  assert (H3 : get (r_alpha3 ex_accel (np_arange 2) 0) 1
               = / (ln 10)² * (3 / 2)).
  { rewrite r_alpha3_entry by (simpl; lia).
    change (nth 1 (np_arange 2) 0%nat) with 1%nat. unfold code_alpha3_r.
    rewrite xi_ex_accel_1. cbn. unfold Rsqr. field. lra. }
  assert (H4 : spec_alpha3_r ex_accel 1 0 = / (ln 10)² * (1 + ln 10 / 2)).
  { unfold spec_alpha3_r. rewrite xi_ex_accel_1. unfold ln10. cbn.
    unfold Rsqr. field. lra. }
  repeat split; try assumption.
  - rewrite H1, H2. intro E. nra.
  - rewrite H3, H4. intro E. nra.
Qed.

End RadialCoefficients.

(** ** Energy stencil and the loss matrices *)

Section EnergyCoefficients.
Context {F : Type} {AF : Arith F}.
Local Open Scope num_scope.

(** On [np.arange(J)[:-1]], the array [spmatrices_loss] passes, the shift
    by one reaches every entry but the last: the last one, energy index
    J-2, is evaluated where it stands. *)
Lemma E_alpha3_arange (s : cn_scheme F) (i m : nat) :
  E_alpha3 s i (removelast (np_arange (S (S m))))
  = map (fun j => E_alpha3_at s i (j + 1)) (seq 0 m) ++ [E_alpha3_at s i m].
Proof.
  unfold np_arange. rewrite removelast_seq. unfold E_alpha3.
  rewrite removelast_seq, last_seq.
  destruct (seq 0 (S m)) eqn:E; [discriminate|]. reflexivity.
Qed.

Lemma get_E_alpha3_arange (s : cn_scheme F) (i m j : nat) :
  (j <= m)%nat ->
  get (E_alpha3 s i (removelast (np_arange (S (S m))))) j
  = if Nat.eqb j m then E_alpha3_at s i j else E_alpha3_at s i (j + 1).
Proof.
  intros Hj. rewrite E_alpha3_arange.
  destruct (Nat.eqb_spec j m) as [->|Hne].
  - rewrite get_app_r by (rewrite length_map, length_seq; lia).
    rewrite length_map, length_seq, Nat.sub_diag. reflexivity.
  - rewrite get_app_l by (rewrite length_map, length_seq; lia).
    apply (get_map_seq (fun j => E_alpha3_at s i (j + 1))). lia.
Qed.

Lemma length_E_alpha3_arange (s : cn_scheme F) (i m : nat) :
  length (E_alpha3 s i (removelast (np_arange (S (S m))))) = S m.
Proof.
  rewrite E_alpha3_arange, length_app, length_map, length_seq. simpl. lia.
Qed.

(** The upper diagonal assembled by [spmatrices_loss]. *)
Lemma loss_k_u_entry (s : cn_scheme F) (i j m : nat) :
  E_bins s = S (S m) -> (i < r_bins s)%nat -> (j <= m)%nat ->
  get (loss_k_u s) (i * E_bins s + j)
  = - (if Nat.eqb j m then E_alpha3_at s i j else E_alpha3_at s i (j + 1))
    / of_Z 2.
Proof.
  intros HJ Hi Hj. unfold loss_k_u. cbv zeta. rewrite HJ.
  rewrite (@get_fill_blocks _ _ (S (S m)) (S m)); try lia.
  - unfold halve_neg.
    rewrite (get_map _ _ zero) by (rewrite length_E_alpha3_arange; lia).
    fold (get (E_alpha3 s i (removelast (np_arange (S (S m))))) j).
    rewrite get_E_alpha3_arange by exact Hj. reflexivity.
  - intros i'. unfold halve_neg. rewrite length_map.
    apply length_E_alpha3_arange.
Qed.

(** Super-diagonal of A_E and B_E in block i, row j < N_E - 1. *)
Lemma loss_upper_entries (s : cn_scheme F) (i j m : nat) :
  E_bins s = S (S m) -> (i < r_bins s)%nat -> (j <= m)%nat ->
  let r := (i * E_bins s + j)%nat in
  let a := if Nat.eqb j m then E_alpha3_at s i j else E_alpha3_at s i (j + 1) in
  entry (fst (spmatrices_loss s)) r (S r) = - a / of_Z 2 /\
  entry (snd (spmatrices_loss s)) r (S r) = - (- a / of_Z 2).
Proof.
  intros HJ Hi Hj r a.
  assert (Hr : (S r < r_bins s * E_bins s)%nat) by (unfold r; nia).
  unfold entry, spmatrices_loss, sparse_diags. cbn [fst snd sp_n sp_upper].
  replace (Nat.ltb r (r_bins s * E_bins s)) with true
    by (symmetry; apply Nat.ltb_lt; lia).
  replace (Nat.ltb (S r) (r_bins s * E_bins s)) with true
    by (symmetry; apply Nat.ltb_lt; lia).
  rewrite Nat.eqb_refl. cbn [andb]. split.
  - apply loss_k_u_entry with (m := m); assumption.
  - assert (Hlen : (r < length (loss_k_u s))%nat).
    { unfold loss_k_u. cbv zeta. rewrite HJ.
      rewrite (@fill_blocks _ _ (S (S m)) (S m)); try lia.
      - rewrite (length_concat_blocks (J := S (S m))).
        + rewrite length_map, length_seq. rewrite HJ in Hr. lia.
        + apply Forall_forall. intros x Hx. apply in_map_iff in Hx.
          destruct Hx as [i' [<- _]].
          rewrite length_app, length_np_zeros. unfold halve_neg.
          rewrite length_map, length_E_alpha3_arange. lia.
      - intros i'. unfold halve_neg. rewrite length_map.
        apply length_E_alpha3_arange. }
    rewrite (get_map _ _ zero) by exact Hlen.
    fold (get (loss_k_u s) r). unfold r.
    rewrite loss_k_u_entry with (m := m) by assumption. reflexivity.
Qed.

End EnergyCoefficients.

Section EnergyCoefficientsR.
Local Open Scope R_scope.

Lemma E_alpha3_at_R (s : cn_scheme R) (i j : nat) :
  E_alpha3_at s i j = Delta_t s * eta s j * get2 (b s) i j / Delta_E s.
Proof.
  unfold E_alpha3_at. rewrite E_prefactor_eta. cbn. unfold Rdiv. ring.
Qed.

(** C2, at the grid [ex_accel] (N_E = 2), block i = 0 and row j = 0 < N_E-1:
    the super-diagonal of A_E holds -(Delta_t eta_0 b_00 / Delta_E)/2 and
    that of B_E its opposite, the coefficient taken at j and not at j+1;
    the values differ from -alpha3_E/2 and +alpha3_E/2 of the claim. *)
Theorem C2_last_upper_entry_not_shifted :
  entry (fst (spmatrices_loss ex_accel)) 0 1 = - (/ ln 10) / 2 /\
  entry (snd (spmatrices_loss ex_accel)) 0 1 = / ln 10 / 2 /\
  spec_alpha3_E ex_accel 0 0 = 2 / ln 10 /\
  entry (fst (spmatrices_loss ex_accel)) 0 1 <> - spec_alpha3_E ex_accel 0 0 / 2 /\
  entry (snd (spmatrices_loss ex_accel)) 0 1 <> spec_alpha3_E ex_accel 0 0 / 2.
Proof.
  pose proof ln10_pos as Hln.
  assert (Hinv : 0 < / ln 10) by (apply Rinv_0_lt_compat; exact Hln).
  assert (Hat : E_alpha3_at ex_accel 0 0 = / ln 10).
  { rewrite E_alpha3_at_R. unfold eta, ln10. cbn.
    rewrite Rpower_O by lra. field. lra. }
  assert (Hspec : spec_alpha3_E ex_accel 0 0 = 2 / ln 10).
  { unfold spec_alpha3_E, eta, ln10. cbn. rewrite Rpower_1 by lra. field. lra. }
  destruct (@loss_upper_entries R R_arith ex_accel 0 0 0) as [HA HB];
    try reflexivity; try (cbn; lia).
  cbn [Nat.eqb Nat.mul Nat.add] in HA, HB. rewrite Hat in HA, HB.
  change (entry (fst (spmatrices_loss ex_accel)) 0 1 = - / ln 10 / 2) in HA.
  change (entry (snd (spmatrices_loss ex_accel)) 0 1 = - (- / ln 10 / 2)) in HB.
  rewrite HA, HB, Hspec. unfold Rdiv. repeat split; lra.
Qed.

End EnergyCoefficientsR.

(** ** The time-step controller *)

Section Controller.
Context {F : Type} {AF : Arith F}.
Local Open Scope num_scope.

(** What [reduce_Delta_t] leaves behind. *)
Lemma reduce_Delta_t_fields (st : loop_state F) (red : F) :
  let st' := reduce_Delta_t st red in
  Delta_t (self st') = Delta_t (self st) * red /\
  t_part st' = 0%nat /\
  (in_loss_all (effect (self st)) = true ->
   loss_AB st' = Some (spmatrices_loss (self st'))) /\
  (in_diffusion_all (effect (self st)) = true ->
   diff_AB st' = Some (spmatrices_diff (self st'))) /\
  psi st' = psi st /\ t st' = t st /\
  convergence_check st' = convergence_check st.
Proof.
  unfold reduce_Delta_t. cbn. repeat split.
  - intros ->. reflexivity.
  - intros ->. reflexivity.
Qed.

(** C3 (amended).  Accelerated, non-benchmark mode with the stability check
    holding: above the smallest step the step is multiplied by the
    reduction factor, the inner counter reset and the matrices of the
    active effects built again from the new step, without converging;
    strictly below it the loop converges exactly when ts_check or
    rel_diff_check holds. *)
Theorem C3_accelerated_switch (st : loop_state F) (smallest red : F) :
  benchmark_flag (self st) = false ->
  const_Delta_t (self st) = false ->
  stability_check st = true ->
  smallest_Delta_t (self st) = Some smallest ->
  Delta_t_reduction (self st) = Some red ->
  ((Delta_t (self st) >? smallest) = true ->
   let st' := reduce_Delta_t st red in
   cn_switch st = Ok (false, st') /\
   Delta_t (self st') = Delta_t (self st) * red /\
   t_part st' = 0%nat /\
   (in_loss_all (effect (self st)) = true ->
    loss_AB st' = Some (spmatrices_loss (self st'))) /\
   (in_diffusion_all (effect (self st)) = true ->
    diff_AB st' = Some (spmatrices_diff (self st'))) /\
   convergence_check st' = convergence_check st) /\
  ((Delta_t (self st) >? smallest) = false ->
   (Delta_t (self st) <? smallest) = true ->
   cn_switch st
   = if ts_check st || rel_diff_check st
     then Ok (true, converged st) else Ok (false, st)).
Proof.
  intros Hb Hc Hs Hsm Hred. unfold cn_switch.
  rewrite Hs, Hb, Hc, Hsm. split.
  - intros Hgt. rewrite Hgt, Hred.
    destruct (reduce_Delta_t_fields st red) as (H1 & H2 & H3 & H4 & _ & _ & H7).
    repeat split; assumption.
  - intros Hgt Hlt. rewrite Hgt, Hlt. reflexivity.
Qed.

End Controller.

Section ControllerR.
Local Open Scope R_scope.

Lemma Rltb_true (x y : R) : x < y -> Rltb x y = true.
Proof. intros H. unfold Rltb. destruct (Rlt_dec x y); [reflexivity|contradiction]. Qed.

Lemma Rltb_false (x y : R) : y <= x -> Rltb x y = false.
Proof. intros H. unfold Rltb. destruct (Rlt_dec x y); [lra|reflexivity]. Qed.

Lemma C3_accelerated_switch_witness :
  cn_switch ex_above = Ok (false, reduce_Delta_t ex_above (1 / 2)) /\
  Delta_t (self (reduce_Delta_t ex_above (1 / 2))) = 2 * (1 / 2) /\
  cn_switch ex_below = Ok (true, converged ex_below).
Proof.
  destruct (@C3_accelerated_switch R R_arith ex_above 1 (1 / 2)
              eq_refl eq_refl eq_refl eq_refl eq_refl) as [Hab _].
  destruct (@C3_accelerated_switch R R_arith ex_below 1 (1 / 2)
              eq_refl eq_refl eq_refl eq_refl eq_refl) as [_ Hbe].
  destruct Hab as (H1 & H2 & _).
  { apply Rltb_true. cbn. lra. }
  split; [|split].
  - exact H1.
  - exact H2.
  - apply Hbe.
    + apply Rltb_false. cbn. lra.
    + apply Rltb_true. cbn. lra.
Defined.

(** C3 as stated fails when Delta_t equals the smallest step: the stability
    check, ts_check and rel_diff_check all hold, Delta_t <= Delta_t_min,
    and the loop neither reduces the step nor converges. *)
Lemma C3_counterexample_at_smallest_step :
  stability_check ex_at_min = true /\
  (ts_check ex_at_min || rel_diff_check ex_at_min = true) /\
  smallest_Delta_t (self ex_at_min) = Some (Delta_t (self ex_at_min)) /\
  cn_switch ex_at_min = Ok (false, ex_at_min) /\
  convergence_check ex_at_min = false.
Proof.
  repeat split. unfold cn_switch.
  change (stability_check ex_at_min) with true.
  change (benchmark_flag (self ex_at_min)) with false.
  change (const_Delta_t (self ex_at_min)) with false.
  change (smallest_Delta_t (self ex_at_min)) with (Some 1).
  change (Delta_t (self ex_at_min)) with 1.
  cbv iota. change (fltb 1 1) with (Rltb 1 1).
  rewrite Rltb_false by lra. reflexivity.
Qed.

End ControllerR.

(** ** Shapes *)

Section ShapeFacts.
Context {F : Type} {AF : Arith F}.

Lemma length_map2 (A B C : Type) (f : A -> B -> C) (a : list A) (c : list B) :
  length (map2 f a c) = Nat.min (length a) (length c).
Proof.
  revert c. induction a as [|x a IH]; intros [|y c]; simpl; auto.
Qed.

Lemma get_map2 (f : F -> F -> F) (a c : vector F) (k : nat) :
  (k < length a)%nat -> (k < length c)%nat ->
  get (map2 f a c) k = f (get a k) (get c k).
Proof.
  unfold get. revert c k. induction a as [|x a IH]; intros [|y c] k Ha Hc;
    simpl in *; try lia.
  destruct k as [|k]; [reflexivity|]. apply IH; lia.
Qed.

Lemma length_dot (A : sparse F) (x : vector F) : length (dot A x) = sp_n A.
Proof. unfold dot. rewrite length_map, length_seq. reflexivity. Qed.

Lemma length_flattenC (I J : nat) (m : matrix F) :
  has_shape I J m -> length (flattenC m) = (I * J)%nat.
Proof.
  intros [HI HJ]. unfold flattenC.
  rewrite (length_concat_blocks HJ).
  apply (f_equal (fun n => (n * J)%nat)). exact HI.
Qed.

Lemma ncols_shape (I J : nat) (m : matrix F) :
  has_shape I J m -> (1 <= I)%nat -> ncols m = J.
Proof.
  intros [HI HJ] H1. unfold ncols. destruct m as [|r m]; simpl in *; [lia|].
  inversion HJ; assumption.
Qed.

Lemma transpose_shape (I J : nat) (m : matrix F) :
  has_shape I J m -> (1 <= I)%nat -> has_shape J I (transpose m).
Proof.
  intros Hm H1. pose proof (ncols_shape Hm H1) as Hc. destruct Hm as [HI HJ].
  unfold transpose. rewrite Hc. split.
  - rewrite length_map, length_seq. reflexivity.
  - apply Forall_forall. intros x Hx. apply in_map_iff in Hx.
    destruct Hx as [j [<- _]]. rewrite length_map. exact HI.
Qed.

Lemma length_flattenF (I J : nat) (m : matrix F) :
  has_shape I J m -> (1 <= I)%nat -> length (flattenF m) = (I * J)%nat.
Proof.
  intros Hm H1. change (flattenF m) with (flattenC (transpose m)).
  rewrite (length_flattenC (transpose_shape Hm H1)). apply Nat.mul_comm.
Qed.

Lemma get2_transpose (I J : nat) (m : matrix F) (i j : nat) :
  has_shape I J m -> (i < I)%nat -> (j < J)%nat ->
  get2 (transpose m) j i = get2 m i j.
Proof.
  intros Hm Hi Hj. assert (H1 : (1 <= I)%nat) by lia.
  pose proof (ncols_shape Hm H1) as Hc. destruct Hm as [HI HJ].
  unfold transpose, get2, row. rewrite Hc.
  rewrite (nth_indep _ [] ((fun j => map (fun r => get r j) m) 0%nat))
    by (rewrite length_map, length_seq; exact Hj).
  rewrite (map_nth (fun j => map (fun r => get r j) m)), seq_nth by exact Hj.
  simpl. apply (get_map (fun r => get r j) m []). lia.
Qed.

Lemma get_flattenC (I J : nat) (m : matrix F) (i j : nat) :
  has_shape I J m -> (i < I)%nat -> (j < J)%nat ->
  get (flattenC m) (i * J + j) = get2 m i j.
Proof.
  intros [HI HJ] Hi Hj. unfold flattenC, get2, row.
  apply get_concat_blocks; try assumption. lia.
Qed.

Lemma get_flattenF (I J : nat) (m : matrix F) (i j : nat) :
  has_shape I J m -> (i < I)%nat -> (j < J)%nat ->
  get (flattenF m) (j * I + i) = get2 m i j.
Proof.
  intros Hm Hi Hj. change (flattenF m) with (flattenC (transpose m)).
  assert (H1 : (1 <= I)%nat) by lia.
  rewrite (get_flattenC (transpose_shape Hm H1)) by assumption.
  apply get2_transpose with (I := I) (J := J); assumption.
Qed.

Lemma tabulate_shape (I J : nat) (f : nat -> nat -> F) :
  has_shape I J (map (fun i => map (fun j => f i j) (seq 0 J)) (seq 0 I)).
Proof.
  split.
  - rewrite length_map, length_seq. reflexivity.
  - apply Forall_forall. intros x Hx. apply in_map_iff in Hx.
    destruct Hx as [i [<- _]]. rewrite length_map, length_seq. reflexivity.
Qed.

Lemma get2_tabulate (I J : nat) (f : nat -> nat -> F) (i j : nat) :
  (i < I)%nat -> (j < J)%nat ->
  get2 (map (fun i => map (fun j => f i j) (seq 0 J)) (seq 0 I)) i j = f i j.
Proof.
  intros Hi Hj. unfold get2, row.
  rewrite (nth_indep _ [] ((fun i => map (fun j => f i j) (seq 0 J)) 0%nat))
    by (rewrite length_map, length_seq; exact Hi).
  rewrite (map_nth (fun i => map (fun j => f i j) (seq 0 J))), seq_nth by exact Hi.
  simpl. apply (get_map_seq (fun j => f i j)). exact Hj.
Qed.

Lemma reshapeC_ok (I J : nat) (v : vector F) :
  length v = (I * J)%nat ->
  exists m, reshapeC I J v = Ok m /\ has_shape I J m /\
            forall i j, (i < I)%nat -> (j < J)%nat -> get2 m i j = get v (i * J + j).
Proof.
  intros Hv. unfold reshapeC. rewrite Hv, Nat.eqb_refl.
  eexists. split; [reflexivity|]. split; [apply tabulate_shape|].
  intros i j Hi Hj. apply (get2_tabulate (fun i j => get v (i * J + j))); assumption.
Qed.

Lemma reshapeF_ok (I J : nat) (v : vector F) :
  length v = (I * J)%nat ->
  exists m, reshapeF I J v = Ok m /\ has_shape I J m /\
            forall i j, (i < I)%nat -> (j < J)%nat -> get2 m i j = get v (j * I + i).
Proof.
  intros Hv. unfold reshapeF. rewrite Hv, Nat.eqb_refl.
  eexists. split; [reflexivity|]. split; [apply tabulate_shape|].
  intros i j Hi Hj. apply (get2_tabulate (fun i j => get v (j * I + i))); assumption.
Qed.


(** [m[-1,:] = 0] keeps the shape and the rows above, and leaves zeros. *)
Lemma zero_last_row_ok (I J : nat) (m : matrix F) :
  has_shape I J m -> (1 <= I)%nat ->
  exists m', zero_last_row m = Ok m' /\ has_shape I J m' /\
             interior m' = removelast m /\
             forall j, (j < J)%nat -> get2 m' (I - 1) j = zero.
Proof.
  intros [HI HJ] H1. unfold zero_last_row.
  destruct m as [|r0 m0] eqn:Em; [simpl in HI; lia|]. rewrite <- Em in *.
  assert (Hne : m <> []) by (rewrite Em; discriminate).
  eexists. split; [reflexivity|].
  destruct (exists_last Hne) as [m1 [x Hx]]. rewrite Hx in *.
  rewrite removelast_last, last_last.
  rewrite length_app in HI. simpl in HI.
  apply Forall_app in HJ. destruct HJ as [HJ1 HJx].
  inversion HJx as [|? ? Hlx _]; subst.
  split; [|split].
  - split.
    + rewrite length_app. simpl. lia.
    + apply Forall_app. split; [exact HJ1|]. constructor; [|constructor].
      rewrite length_map. reflexivity.
  - unfold interior. apply removelast_last.
  - intros j Hj. unfold get2, row.
    replace (length m1 + 1 - 1)%nat with (length m1) by lia.
    rewrite app_nth2, Nat.sub_diag by lia. simpl.
    rewrite (get_map (fun _ => zero) x zero) by exact Hj. reflexivity.
Qed.

End ShapeFacts.

(** ** The blocks of the loop body *)

Section LoopFacts.
Context {F : Type} {AF : Arith F}.
Variable spsolve : sparse F -> vector F -> vector F.
Variable Q : matrix F.
Variables I J : nat.
Hypothesis Hsolve : solver_ok spsolve.
Hypothesis HQ : has_shape I J Q.
Hypothesis HI : (1 <= I)%nat.



Lemma length_rhs_loss (s : cn_scheme F) (B : sparse F) (psi0 : matrix F) :
  sp_n B = (I * J)%nat -> length (rhs_loss s B Q psi0) = (I * J)%nat.
Proof.
  intros HB. unfold rhs_loss.
  rewrite length_map2, length_dot, length_map, (length_flattenC HQ), HB.
  apply Nat.min_id.
Qed.

Lemma length_rhs_diff (s : cn_scheme F) (B : sparse F) (psi0 : matrix F) :
  sp_n B = (I * J)%nat -> length (rhs_diff s B Q psi0) = (I * J)%nat.
Proof.
  intros HB. unfold rhs_diff.
  rewrite length_map2, length_dot, length_map, (length_flattenF HQ HI), HB.
  apply Nat.min_id.
Qed.




End LoopFacts.

(** ** The loop *)

Section LoopRule.
Context {F : Type} {AF : Arith F}.
Variable spsolve : sparse F -> vector F -> vector F.
Variable Q : matrix F.
Variables I J : nat.
Hypothesis Hsolve : solver_ok spsolve.
Hypothesis HQ : has_shape I J Q.
Hypothesis HI : (1 <= I)%nat.









End LoopRule.

(** ** The equation environment *)

Section EnvironmentFacts.
Context {F : Type} {AF : Arith F}.
Local Open Scope num_scope.

Lemma nrows_tensordot (a c : vector F) : nrows (tensordot a c) = length a.
Proof. unfold nrows, tensordot. apply length_map. Qed.

Lemma ncols_tensordot (a c : vector F) :
  (1 <= length a)%nat -> ncols (tensordot a c) = length c.
Proof.
  intros Ha. unfold ncols, tensordot. destruct a; simpl in *; [lia|].
  apply length_map.
Qed.

Lemma elementwise_shape (like : matrix F) (f : nat -> nat -> F) :
  has_shape (nrows like) (ncols like) (elementwise like f).
Proof. unfold elementwise. apply tabulate_shape. Qed.

Lemma get2_elementwise (like : matrix F) (f : nat -> nat -> F) (i j : nat) :
  (i < nrows like)%nat -> (j < ncols like)%nat ->
  get2 (elementwise like f) i j = f i j.
Proof. intros Hi Hj. unfold elementwise. apply (get2_tabulate f); assumption. Qed.

Lemma get2_tensordot (a c : vector F) (i j : nat) :
  (i < length a)%nat -> (j < length c)%nat ->
  get2 (tensordot a c) i j = get a i * get c j.
Proof.
  intros Hi Hj. unfold get2, row, tensordot.
  rewrite (nth_indep _ [] ((fun x => map (fun y => x * y) c) zero))
    by (rewrite length_map; exact Hi).
  rewrite (map_nth (fun x => map (fun y => x * y) c)).
  apply (get_map (fun y => nth i a zero * y) c zero). exact Hj.
Qed.

Lemma index_map_ok (A : Type) (f : A -> F) (l : list A) (k : nat) :
  (k < length l)%nat -> exists x, index (map f l) k = Ok x.
Proof.
  intros Hk. unfold index.
  destruct (nth_error (map f l) k) eqn:E; [eauto|].
  apply nth_error_None in E. rewrite length_map in E. lia.
Qed.

(** What [solveElectrons] has set when it calls [cn_2D]. *)
Lemma solveElectrons_env_ok (bench const anim : bool) (u : unit_factors F)
      (a : solve_args F) :
  valid_input a -> mode_exp a <> 0%Z ->
  exists s, solveElectrons_env bench const anim u a = Ok s /\
    r_bins s = length (r_sample a) /\ E_bins s = length (E_sample a) /\
    has_shape (r_bins s) (E_bins s) (Q s) /\
    effect s = (if lossOnly a then Loss else All) /\
    benchmark_flag s = bench /\
    const_Delta_t s = (if bench then true else const) /\
    animation_flag s = anim /\ snapshots s = None /\
    smallest_Delta_t s
    = (if const_Delta_t s then None else Some (Delta_t_min a * yr_to_s u)) /\
    max_t_part s = (if const_Delta_t s then None else Some (max_t_part_arg a)) /\
    Delta_t_reduction s
    = (if const_Delta_t s then None else Some (Delta_t_reduction_arg a)) /\
    Delta_ti s
    = (if const_Delta_t s
       then match effect s with
            | Loss => np_min (flattenC (loss_ts s))
            | Diffusion => np_min (flattenC (diff_ts s))
            | All => np_min [np_min (flattenC (loss_ts s));
                             np_min (flattenC (diff_ts s))]
            end
       else Delta_ti_arg a * yr_to_s u) /\
    Delta_t s
    = Delta_ti s * (match effect s with All => dec 5 (-1) | _ => of_Z 1 end)
      * (if bench then dec 1 (-1) else of_Z 1) /\
    E_grid s = E_sample a /\
    constants s = make_constants (z a) /\
    b s = set_b (constants s)
                (tensordot (b_sample a) (np_ones (E_bins s)))
                (tensordot (ne_sample a) (np_ones (E_bins s)))
                (tensordot (np_ones (r_bins s)) (E_grid s)).
Proof.
  intros (Hr & HE & Hrho & HQs & _) Hm. unfold solveElectrons_env, nonzero_divisor.
  destruct (Z.eqb_spec (mode_exp a) 0) as [H0|_]; [contradiction|]. cbn [bind].
  destruct (@index_map_ok _ (fun r => r * Mpc_to_cm u) (r_sample a) 1)
    as [r1 ->]; [lia|].
  destruct (@index_map_ok _ (fun r => r * Mpc_to_cm u) (r_sample a) 0)
    as [r0' ->]; [lia|].
  cbn [bind].
  set (rg := map (fun r => r * Mpc_to_cm u) (r_sample a)).
  destruct (@index_map_ok _ (fun r => flog10 (r / (rScale a * Mpc_to_cm u))) rg 1)
    as [lr1 ->]; [unfold rg; rewrite length_map; lia|].
  destruct (@index_map_ok _ (fun r => flog10 (r / (rScale a * Mpc_to_cm u))) rg 0)
    as [lr0 ->]; [unfold rg; rewrite length_map; lia|].
  cbn [bind].
  destruct (@index_map_ok _ (fun E => flog10 (E / eScale a)) (E_sample a) 1)
    as [lE1 ->]; [lia|].
  destruct (@index_map_ok _ (fun E => flog10 (E / eScale a)) (E_sample a) 0)
    as [lE0 ->]; [lia|].
  cbn [bind].
  eexists. split; [reflexivity|].
  split; [reflexivity|]. split; [reflexivity|]. split.
  { cbn [Q r_bins E_bins].
    set (rho := map (fun x => x * Msun_Mpc3_c2_to_GeV_cm3 u) (rho_sample a)).
    assert (Hlr : length rho = length (r_sample a))
      by (unfold rho; rewrite length_map; exact Hrho).
    pose proof (elementwise_shape (tensordot rho (ones_like (E_sample a)))) as Hsh.
    rewrite nrows_tensordot, ncols_tensordot in Hsh by lia.
    unfold ones_like in Hsh. rewrite length_map, Hlr in Hsh. apply Hsh. }
  repeat (split; [reflexivity|]). reflexivity.
Qed.

(** The setup returns only when [1/mode_exp] could be computed. *)
Lemma env_mode_exp (bench const anim : bool) (u : unit_factors F)
      (a : solve_args F) (s : cn_scheme F) :
  solveElectrons_env bench const anim u a = Ok s -> mode_exp a <> 0%Z.
Proof.
  unfold solveElectrons_env, nonzero_divisor.
  destruct (Z.eqb_spec (mode_exp a) 0) as [H0|H0]; [discriminate|].
  intros _. exact H0.
Qed.

End EnvironmentFacts.

(** ** Runs of [cn_2D] and [solveElectrons] *)

Section Runs.
Context {F : Type} {AF : Arith F}.
Variable spsolve : sparse F -> vector F -> vector F.
Hypothesis Hsolve : solver_ok spsolve.



End Runs.

Section SolveElectrons.
Context {F : Type} {AF : Arith F}.
Variable spsolve : sparse F -> vector F -> vector F.





End SolveElectrons.

(** ** Snapshots *)

Section Snapshots.
Context {F : Type} {AF : Arith F}.
Variables I J : nat.




End Snapshots.

Section SnapshotsOfARun.
Context {F : Type} {AF : Arith F}.
Variable spsolve : sparse F -> vector F -> vector F.


End SnapshotsOfARun.

(** ** Benchmark runs *)

Section Benchmark.
Context {F : Type} {AF : Arith F}.
Local Open Scope num_scope.
Variable spsolve : sparse F -> vector F -> vector F.



End Benchmark.

(** ** The properties on a two-by-two grid *)

Section Witnesses.
Local Open Scope R_scope.

Lemma ex_solve_ok : solver_ok ex_solve.
Proof. intros A rhs H. exact H. Defined.

Lemma ex_args_valid (loss_only : bool) : valid_input (ex_args loss_only).
Proof. unfold valid_input. cbn. repeat split; lia. Defined.

Lemma ex_mode_exp (loss_only : bool) : mode_exp (ex_args loss_only) <> 0%Z.
Proof. discriminate. Defined.





End Witnesses.

(** ** The energy-loss rate *)

Section EnergyLoss.
Local Open Scope R_scope.

Lemma get_np_ones (n k : nat) : (k < n)%nat -> get (np_ones n) k = 1.
Proof.
  unfold get, np_ones. revert k.
  induction n as [|n IH]; intros [|k] Hk; simpl; try lia; auto.
  apply IH. lia.
Qed.

Lemma dec_R (m e : Z) : dec m e = IZR m * powerRZ 10 e.
Proof. reflexivity. Qed.


End EnergyLoss.

(** ** The source term in the two half-steps *)

Section SourceTerm.
Local Open Scope R_scope.
Variable spsolve : sparse R -> vector R -> vector R.

Lemma get_rhs_loss (s : cn_scheme R) (B : sparse R) (Qm psi0 : matrix R)
      (I J i j : nat) :
  has_shape I J Qm -> sp_n B = (I * J)%nat -> (i < I)%nat -> (j < J)%nat ->
  get (rhs_loss s B Qm psi0) (i * J + j)
  = get (dot B (flattenC psi0)) (i * J + j) + get2 Qm i j * Delta_t s.
Proof.
  intros HQ HB Hi Hj. unfold rhs_loss.
  assert (Hk : (i * J + j < I * J)%nat) by nia.
  rewrite get_map2
    by (rewrite ?length_dot, ?length_map, ?(length_flattenC HQ); lia).
  rewrite (get_map (fun q => q * Delta_t s) (flattenC Qm) zero)
    by (rewrite (length_flattenC HQ); lia).
  fold (get (flattenC Qm) (i * J + j)).
  rewrite (get_flattenC HQ) by assumption. reflexivity.
Qed.

Lemma get_rhs_diff (s : cn_scheme R) (B : sparse R) (Qm psi0 : matrix R)
      (I J i j : nat) :
  has_shape I J Qm -> sp_n B = (I * J)%nat -> (i < I)%nat -> (j < J)%nat ->
  get (rhs_diff s B Qm psi0) (j * I + i)
  = get (dot B (flattenF psi0)) (j * I + i) + get2 Qm i j * Delta_t s.
Proof.
  intros HQ HB Hi Hj. unfold rhs_diff.
  assert (H1 : (1 <= I)%nat) by lia.
  assert (Hk : (j * I + i < I * J)%nat) by nia.
  rewrite get_map2
    by (rewrite ?length_dot, ?length_map, ?(length_flattenF HQ H1); lia).
  rewrite (get_map (fun q => q * Delta_t s) (flattenF Qm) zero)
    by (rewrite (length_flattenF HQ H1); lia).
  fold (get (flattenF Qm) (j * I + i)).
  rewrite (get_flattenF HQ) by assumption. reflexivity.
Qed.

(** C4.  With the effect set "all", one pass of the update solves the
    energy system with right-hand side B_E psi + Q Delta_t, flattened
    row-major, then the radial system with right-hand side
    B_r psi + Q Delta_t, flattened column-major: each cell receives the
    full Q Delta_t in both half-steps, 2 Q Delta_t in all. *)
Theorem C4_source_in_both_half_steps (st : loop_state R) (Qm : matrix R)
        (I J : nat) :
  solver_ok spsolve -> loop_inv I J st -> has_shape I J Qm -> (1 <= I)%nat ->
  effect (self st) = All ->
  exists loss_A loss_B diff_A diff_B psi1 psi2 st',
    loss_AB st = Some (loss_A, loss_B) /\ diff_AB st = Some (diff_A, diff_B) /\
    reshapeC I J (spsolve loss_A (rhs_loss (self st) loss_B Qm (psi st))) = Ok psi1 /\
    reshapeF I J (spsolve diff_A (rhs_diff (self st) diff_B Qm psi1)) = Ok psi2 /\
    zero_last_row psi2 = Ok (psi st') /\
    cn_advance spsolve Qm st = Ok st' /\
    forall i j, (i < I)%nat -> (j < J)%nat ->
      let dt := Delta_t (self st) in
      let source_E := get (rhs_loss (self st) loss_B Qm (psi st)) (i * J + j)
                      - get (dot loss_B (flattenC (psi st))) (i * J + j) in
      let source_r := get (rhs_diff (self st) diff_B Qm psi1) (j * I + i)
                      - get (dot diff_B (flattenF psi1)) (j * I + i) in
      source_E = dt * get2 Qm i j /\
      source_r = dt * get2 Qm i j /\
      source_E + source_r = 2 * get2 Qm i j * dt.
Proof.
  intros Hsolve Hinv HQ HI Heff.
  destruct Hinv as (Hr & He & Hpar & Hsn & Hl & Hd).
  rewrite Heff in Hl, Hd.
  destruct (Hl eq_refl) as (lA & lB & HlAB & HlA & HlB).
  destruct (Hd eq_refl) as (dA & dB & HdAB & HdA & HdB).
  destruct (@reshapeC_ok R R_arith I J (spsolve lA (rhs_loss (self st) lB Qm (psi st))))
    as (psi1 & Hpsi1 & Hsh1 & _).
  { rewrite Hsolve; [exact HlA|].
    rewrite (length_rhs_loss HQ); auto. }
  destruct (@reshapeF_ok R R_arith I J (spsolve dA (rhs_diff (self st) dB Qm psi1)))
    as (psi2 & Hpsi2 & Hsh2 & _).
  { rewrite Hsolve; [exact HdA|].
    rewrite (length_rhs_diff HQ HI); auto. }
  destruct (zero_last_row_ok Hsh2 HI) as (psi3 & Hpsi3 & _).
  assert (Hadv : exists st', cn_advance spsolve Qm st = Ok st' /\ psi st' = psi3).
  { unfold cn_advance, loss_half_step, diff_half_step.
    rewrite Heff, HlAB, HdAB, Hr, He. cbn [in_loss_all in_diffusion_all].
    rewrite Hpsi1. cbn [bind]. rewrite Hpsi2. cbn [bind].
    rewrite Hpsi3. cbn [bind]. unfold store_snapshot.
    destruct (animation_flag (self st)) eqn:Han.
    - destruct (snapshots (self st)) as [l|] eqn:Hsl;
        [|destruct (Hsn eq_refl); reflexivity].
      cbn [bind]. eexists. split; reflexivity.
    - cbn [bind]. eexists. split; reflexivity. }
  destruct Hadv as (st' & Hst' & Hpsi').
  exists lA, lB, dA, dB, psi1, psi2, st'.
  rewrite Hpsi'. repeat (split; [assumption|]).
  intros i j Hi Hj dt source_E source_r. unfold source_E, source_r, dt.
  rewrite (@get_rhs_loss (self st) lB Qm (psi st) I J i j HQ HlB Hi Hj).
  rewrite (@get_rhs_diff (self st) dB Qm psi1 I J i j HQ HdB Hi Hj).
  repeat split; lra.
Qed.

End SourceTerm.

Section MoreWitnesses.
Local Open Scope R_scope.

Lemma ex_state_inv : loop_inv 2 2 ex_at_min.
Proof.
  unfold loop_inv. cbn.
  repeat split; try discriminate;
    intros _; eexists _, _; (split; [reflexivity|]); split; reflexivity.
Defined.

Lemma ex_Q_shape : @has_shape R 2 2 [[1; 1]; [1; 1]].
Proof. split; [reflexivity|]. repeat constructor. Defined.

Lemma C4_source_in_both_half_steps_witness :
  exists loss_A loss_B diff_A diff_B psi1 psi2 st',
    loss_AB ex_at_min = Some (loss_A, loss_B) /\
    diff_AB ex_at_min = Some (diff_A, diff_B) /\
    reshapeC 2 2 (ex_solve loss_A (rhs_loss (self ex_at_min) loss_B
                                           [[1; 1]; [1; 1]] (psi ex_at_min)))
    = Ok psi1 /\
    reshapeF 2 2 (ex_solve diff_A (rhs_diff (self ex_at_min) diff_B
                                           [[1; 1]; [1; 1]] psi1))
    = Ok psi2 /\
    zero_last_row psi2 = Ok (psi st') /\
    cn_advance ex_solve [[1; 1]; [1; 1]] ex_at_min = Ok st' /\
    forall i j, (i < 2)%nat -> (j < 2)%nat ->
      let dt := Delta_t (self ex_at_min) in
      let source_E :=
        get (rhs_loss (self ex_at_min) loss_B [[1; 1]; [1; 1]] (psi ex_at_min))
            (i * 2 + j)
        - get (dot loss_B (flattenC (psi ex_at_min))) (i * 2 + j) in
      let source_r :=
        get (rhs_diff (self ex_at_min) diff_B [[1; 1]; [1; 1]] psi1) (j * 2 + i)
        - get (dot diff_B (flattenF psi1)) (j * 2 + i) in
      source_E = dt * get2 [[1; 1]; [1; 1]] i j /\
      source_r = dt * get2 [[1; 1]; [1; 1]] i j /\
      source_E + source_r = 2 * get2 [[1; 1]; [1; 1]] i j * dt.
Proof.
  exact (@C4_source_in_both_half_steps ex_solve ex_at_min [[1; 1]; [1; 1]] 2 2
           ex_solve_ok ex_state_inv ex_Q_shape (le_S 1 1 (le_n 1)) eq_refl).
Defined.


End MoreWitnesses.

(** ** Non-finite coefficients *)

Section NonFinite.
Context {F : Type} {AF : Arith F}.
Variable spsolve : sparse F -> vector F -> vector F.


End NonFinite.

Section GasFreeHalo.








End GasFreeHalo.

(** * Further properties of the solver *)

(** ** The diagonals of the two matrix pairs *)

Section Diagonals.
Context {F : Type} {AF : Arith F}.
Local Open Scope num_scope.

Lemma length_r_alpha1 (s : cn_scheme F) (idx : list nat) (j : nat) :
  length (r_alpha1 s idx j) = length idx.
Proof. unfold r_alpha1. apply length_map. Qed.

Lemma length_r_alpha2 (s : cn_scheme F) (idx : list nat) (j : nat) :
  length (r_alpha2 s idx j) = length idx.
Proof. destruct idx; simpl; [reflexivity|]. rewrite length_map. reflexivity. Qed.

Lemma length_r_alpha3 (s : cn_scheme F) (idx : list nat) (j : nat) :
  length (r_alpha3 s idx j) = length idx.
Proof. destruct idx; simpl; [reflexivity|]. rewrite length_map. reflexivity. Qed.

Lemma length_E_alpha2 (s : cn_scheme F) (i : nat) (idx : list nat) :
  length (E_alpha2 s i idx) = length idx.
Proof. unfold E_alpha2. apply length_map. Qed.

Lemma length_E_alpha1 (s : cn_scheme F) (i : nat) (idx : list nat) :
  length (E_alpha1 s i idx) = length idx.
Proof. unfold E_alpha1. apply length_np_zeros. Qed.

Lemma length_tl_arange (n : nat) : length (tl (np_arange n)) = (n - 1)%nat.
Proof. unfold np_arange. destruct n; simpl; [reflexivity|]. rewrite length_seq. lia. Qed.

Lemma length_removelast_arange (n : nat) :
  length (removelast (np_arange n)) = (n - 1)%nat.
Proof.
  unfold np_arange. destruct n; [reflexivity|].
  rewrite removelast_seq, length_seq. lia.
Qed.

Lemma nth_tl_arange (n k : nat) :
  (S k < n)%nat -> nth k (tl (np_arange n)) 0%nat = S k.
Proof.
  intros Hk. unfold np_arange. destruct n; [lia|]. simpl.
  rewrite seq_nth by lia. reflexivity.
Qed.

Lemma nth_removelast_arange (n k : nat) :
  (S k < n)%nat -> nth k (removelast (np_arange n)) 0%nat = k.
Proof.
  intros Hk. unfold np_arange. destruct n; [lia|].
  rewrite removelast_seq, seq_nth by lia. reflexivity.
Qed.

(** A filled diagonal has one entry per unknown. *)
Lemma length_fill_blocks (J L : nat) (f : nat -> vector F) (I : nat) :
  (forall i, length (f i) = L) -> (L <= J)%nat ->
  length (fold_left (fun k i => set_slice k (i * J) (f i)) (seq 0 I) (np_zeros (I * J)))
  = (I * J)%nat.
Proof.
  intros Hf HL. rewrite (@fill_blocks _ _ J L) by auto.
  rewrite (length_concat_blocks (J := J)).
  - rewrite length_map, length_seq. reflexivity.
  - apply Forall_forall. intros x Hx. apply in_map_iff in Hx.
    destruct Hx as [i [<- _]]. rewrite length_app, Hf, length_np_zeros. lia.
Qed.

(** The entries of a block past the values assigned to it stay zero. *)
Lemma get_fill_blocks_rest (J L : nat) (f : nat -> vector F) (I i j : nat) :
  (forall i, length (f i) = L) -> (L <= J)%nat -> (i < I)%nat ->
  (L <= j)%nat -> (j < J)%nat ->
  get (fold_left (fun k i => set_slice k (i * J) (f i)) (seq 0 I) (np_zeros (I * J)))
      (i * J + j)
  = zero.
Proof.
  intros Hf HL Hi Hj HjJ. rewrite (@fill_blocks _ _ J L) by auto.
  rewrite (@get_concat_blocks _ _ J).
  - rewrite (nth_indep _ [] ((fun i => f i ++ np_zeros (J - L)) 0%nat))
      by (rewrite length_map, length_seq; exact Hi).
    rewrite (map_nth (fun i => f i ++ np_zeros (J - L))), seq_nth by exact Hi.
    simpl. rewrite get_app_r by (rewrite Hf; exact Hj). apply get_np_zeros.
  - apply Forall_forall. intros x Hx. apply in_map_iff in Hx.
    destruct Hx as [i' [<- _]]. rewrite length_app, Hf, length_np_zeros. lia.
  - rewrite length_map, length_seq. exact Hi.
  - exact HjJ.
Qed.

End Diagonals.

Section SparseEntries.
Context {F : Type} {AF : Arith F}.

Lemma entry_main (A : sparse F) (r : nat) :
  (r < sp_n A)%nat -> entry A r r = get (sp_main A) r.
Proof.
  intros Hr. unfold entry.
  replace (Nat.ltb r (sp_n A)) with true by (symmetry; apply Nat.ltb_lt; lia).
  cbn [andb]. replace (Nat.eqb r (S r)) with false by (symmetry; apply Nat.eqb_neq; lia).
  rewrite Nat.eqb_refl. reflexivity.
Qed.

Lemma entry_upper (A : sparse F) (r : nat) :
  (S r < sp_n A)%nat -> entry A r (S r) = get (sp_upper A) r.
Proof.
  intros Hr. unfold entry.
  replace (Nat.ltb r (sp_n A)) with true by (symmetry; apply Nat.ltb_lt; lia).
  replace (Nat.ltb (S r) (sp_n A)) with true by (symmetry; apply Nat.ltb_lt; lia).
  cbn [andb]. rewrite Nat.eqb_refl. reflexivity.
Qed.

Lemma entry_lower (A : sparse F) (c : nat) :
  (S c < sp_n A)%nat -> entry A (S c) c = get (sp_lower A) c.
Proof.
  intros Hr. unfold entry.
  replace (Nat.ltb c (sp_n A)) with true by (symmetry; apply Nat.ltb_lt; lia).
  replace (Nat.ltb (S c) (sp_n A)) with true by (symmetry; apply Nat.ltb_lt; lia).
  cbn [andb].
  replace (Nat.eqb c (S (S c))) with false by (symmetry; apply Nat.eqb_neq; lia).
  replace (Nat.eqb c (S c)) with false by (symmetry; apply Nat.eqb_neq; lia).
  rewrite Nat.eqb_refl. reflexivity.
Qed.

Lemma entry_off_band (A : sparse F) (r c : nat) :
  c <> r -> c <> S r -> r <> S c -> entry A r c = zero.
Proof.
  intros H1 H2 H3. unfold entry.
  destruct (Nat.ltb r (sp_n A) && Nat.ltb c (sp_n A))%bool; [|reflexivity].
  replace (Nat.eqb c (S r)) with false by (symmetry; apply Nat.eqb_neq; lia).
  replace (Nat.eqb c r) with false by (symmetry; apply Nat.eqb_neq; lia).
  replace (Nat.eqb r (S c)) with false by (symmetry; apply Nat.eqb_neq; lia).
  reflexivity.
Qed.

Lemma entry_outside (A : sparse F) (r c : nat) :
  (sp_n A <= r)%nat \/ (sp_n A <= c)%nat -> entry A r c = zero.
Proof.
  intros H. unfold entry.
  replace (Nat.ltb r (sp_n A) && Nat.ltb c (sp_n A))%bool with false; [reflexivity|].
  symmetry. apply andb_false_iff. destruct H; [left|right]; apply Nat.ltb_ge; lia.
Qed.

(** The diagonals of the diffusion pair, block j, radius index i. *)
Lemma diff_k_mA_entry (s : cn_scheme F) (i j : nat) :
  (i < r_bins s)%nat -> (j < E_bins s)%nat ->
  get (diff_k_mA s) (j * r_bins s + i)
  = fadd (of_Z 1) (fdiv (get (r_alpha2 s (np_arange (r_bins s)) j) i) (of_Z 2)).
Proof.
  intros Hi Hj. unfold diff_k_mA. cbv zeta.
  rewrite (Nat.mul_comm (r_bins s) (E_bins s)).
  assert (Hlen : forall j', length (one_plus_half (r_alpha2 s (np_arange (r_bins s)) j'))
                            = r_bins s).
  { intros j'. unfold one_plus_half, np_arange.
    rewrite length_map, length_r_alpha2, length_seq. reflexivity. }
  rewrite (@get_fill_blocks _ _ (r_bins s) (r_bins s)); try lia; [|exact Hlen].
  unfold one_plus_half.
  rewrite (get_map _ _ zero)
    by (unfold np_arange; rewrite length_r_alpha2, length_seq; exact Hi).
  reflexivity.
Qed.

Lemma diff_k_mB_entry (s : cn_scheme F) (i j : nat) :
  (i < r_bins s)%nat -> (j < E_bins s)%nat ->
  get (diff_k_mB s) (j * r_bins s + i)
  = fsub (of_Z 1) (fdiv (get (r_alpha2 s (np_arange (r_bins s)) j) i) (of_Z 2)).
Proof.
  intros Hi Hj. unfold diff_k_mB. cbv zeta.
  rewrite (Nat.mul_comm (r_bins s) (E_bins s)).
  assert (Hlen : forall j', length (one_minus_half (r_alpha2 s (np_arange (r_bins s)) j'))
                            = r_bins s).
  { intros j'. unfold one_minus_half, np_arange.
    rewrite length_map, length_r_alpha2, length_seq. reflexivity. }
  rewrite (@get_fill_blocks _ _ (r_bins s) (r_bins s)); try lia; [|exact Hlen].
  unfold one_minus_half.
  rewrite (get_map _ _ zero)
    by (unfold np_arange; rewrite length_r_alpha2, length_seq; exact Hi).
  reflexivity.
Qed.

Lemma diff_k_u_entry (s : cn_scheme F) (i j : nat) :
  (S i < r_bins s)%nat -> (j < E_bins s)%nat ->
  get (diff_k_u s) (j * r_bins s + i)
  = fdiv (fneg (get (r_alpha3 s (removelast (np_arange (r_bins s))) j) i)) (of_Z 2).
Proof.
  intros Hi Hj. unfold diff_k_u. cbv zeta.
  rewrite (Nat.mul_comm (r_bins s) (E_bins s)).
  assert (Hlen : forall j', length (halve_neg (r_alpha3 s (removelast (np_arange (r_bins s))) j'))
                            = (r_bins s - 1)%nat).
  { intros j'. unfold halve_neg.
    rewrite length_map, length_r_alpha3. apply length_removelast_arange. }
  rewrite (@get_fill_blocks _ _ (r_bins s) (r_bins s - 1)); try lia; [|exact Hlen].
  unfold halve_neg.
  rewrite (get_map _ _ zero)
    by (rewrite length_r_alpha3, length_removelast_arange; lia).
  reflexivity.
Qed.

Lemma diff_k_l_entry (s : cn_scheme F) (i j : nat) :
  (S i < r_bins s)%nat -> (j < E_bins s)%nat ->
  get (diff_k_l s) (j * r_bins s + i)
  = fdiv (fneg (get (r_alpha1 s (tl (np_arange (r_bins s))) j) i)) (of_Z 2).
Proof.
  intros Hi Hj. unfold diff_k_l. cbv zeta.
  rewrite (Nat.mul_comm (r_bins s) (E_bins s)).
  assert (Hlen : forall j', length (halve_neg (r_alpha1 s (tl (np_arange (r_bins s))) j'))
                            = (r_bins s - 1)%nat).
  { intros j'. unfold halve_neg.
    rewrite length_map, length_r_alpha1. apply length_tl_arange. }
  rewrite (@get_fill_blocks _ _ (r_bins s) (r_bins s - 1)); try lia; [|exact Hlen].
  unfold halve_neg.
  rewrite (get_map _ _ zero)
    by (rewrite length_r_alpha1, length_tl_arange; lia).
  reflexivity.
Qed.

(** The last entry of each block of the off-diagonals is never assigned. *)
Lemma diff_k_u_block_end (s : cn_scheme F) (j : nat) :
  (1 <= r_bins s)%nat -> (j < E_bins s)%nat ->
  get (diff_k_u s) (j * r_bins s + (r_bins s - 1)) = zero.
Proof.
  intros HI Hj. unfold diff_k_u. cbv zeta.
  rewrite (Nat.mul_comm (r_bins s) (E_bins s)).
  apply (@get_fill_blocks_rest _ _ (r_bins s) (r_bins s - 1)); try lia.
  intros j'. unfold halve_neg.
  rewrite length_map, length_r_alpha3. apply length_removelast_arange.
Qed.

Lemma diff_k_l_block_end (s : cn_scheme F) (j : nat) :
  (1 <= r_bins s)%nat -> (j < E_bins s)%nat ->
  get (diff_k_l s) (j * r_bins s + (r_bins s - 1)) = zero.
Proof.
  intros HI Hj. unfold diff_k_l. cbv zeta.
  rewrite (Nat.mul_comm (r_bins s) (E_bins s)).
  apply (@get_fill_blocks_rest _ _ (r_bins s) (r_bins s - 1)); try lia.
  intros j'. unfold halve_neg.
  rewrite length_map, length_r_alpha1. apply length_tl_arange.
Qed.

Lemma loss_k_u_block_end (s : cn_scheme F) (i : nat) :
  (1 <= E_bins s)%nat -> (i < r_bins s)%nat ->
  get (loss_k_u s) (i * E_bins s + (E_bins s - 1)) = zero.
Proof.
  intros HJ Hi. unfold loss_k_u. cbv zeta.
  assert (Hlen : forall i', length (halve_neg (E_alpha3 s i' (removelast (np_arange (E_bins s)))))
                            = (E_bins s - 1)%nat).
  { intros i'. unfold halve_neg. rewrite length_map.
    destruct (E_bins s) as [|[|m]] eqn:E; try reflexivity.
    rewrite length_E_alpha3_arange. lia. }
  apply (@get_fill_blocks_rest _ _ (E_bins s) (E_bins s - 1)); try lia. exact Hlen.
Qed.

(** [E_alpha1] is zero: the lower diagonal of the loss pair holds -0/2. *)
Lemma loss_k_l_entry (s : cn_scheme F) (k : nat) :
  (1 <= E_bins s)%nat -> (k < r_bins s * E_bins s)%nat ->
  get (loss_k_l s) k = zero \/ get (loss_k_l s) k = fdiv (fneg zero) (of_Z 2).
Proof.
  intros HJ Hk. unfold loss_k_l. cbv zeta.
  assert (Hlen : forall i', length (halve_neg (E_alpha1 s i' (tl (np_arange (E_bins s)))))
                            = (E_bins s - 1)%nat).
  { intros i'. unfold halve_neg.
    rewrite length_map, length_E_alpha1. apply length_tl_arange. }
  set (J := E_bins s) in *.
  assert (HkJ : k = ((k / J) * J + k mod J)%nat).
  { rewrite (Nat.div_mod_eq k J) at 1. lia. }
  assert (Hi : (k / J < r_bins s)%nat).
  { apply Nat.Div0.div_lt_upper_bound. lia. }
  assert (Hj : (k mod J < J)%nat) by (apply Nat.mod_upper_bound; lia).
  rewrite HkJ.
  destruct (Nat.lt_ge_cases (k mod J) (J - 1)) as [Hlt|Hge].
  - right. rewrite (@get_fill_blocks _ _ J (J - 1)); try lia; [|exact Hlen].
    unfold halve_neg. rewrite (get_map _ _ zero)
      by (rewrite length_E_alpha1, length_tl_arange; exact Hlt).
    unfold E_alpha1. fold (get (np_zeros (length (tl (np_arange J)))) (k mod J)).
    rewrite get_np_zeros. reflexivity.
  - left. apply (@get_fill_blocks_rest _ _ J (J - 1)); try lia. exact Hlen.
Qed.

Lemma loss_k_mA_entry (s : cn_scheme F) (i j : nat) :
  (i < r_bins s)%nat -> (j < E_bins s)%nat ->
  get (loss_k_mA s) (i * E_bins s + j)
  = fadd (of_Z 1) (fdiv (get (E_alpha2 s i (np_arange (E_bins s))) j) (of_Z 2)).
Proof.
  intros Hi Hj. unfold loss_k_mA. cbv zeta.
  assert (Hlen : forall i', length (one_plus_half (E_alpha2 s i' (np_arange (E_bins s))))
                            = E_bins s).
  { intros i'. unfold one_plus_half, np_arange.
    rewrite length_map, length_E_alpha2, length_seq. reflexivity. }
  rewrite (@get_fill_blocks _ _ (E_bins s) (E_bins s)); try lia; [|exact Hlen].
  unfold one_plus_half.
  rewrite (get_map _ _ zero)
    by (unfold np_arange; rewrite length_E_alpha2, length_seq; exact Hj).
  reflexivity.
Qed.

Lemma loss_k_mB_entry (s : cn_scheme F) (i j : nat) :
  (i < r_bins s)%nat -> (j < E_bins s)%nat ->
  get (loss_k_mB s) (i * E_bins s + j)
  = fsub (of_Z 1) (fdiv (get (E_alpha2 s i (np_arange (E_bins s))) j) (of_Z 2)).
Proof.
  intros Hi Hj. unfold loss_k_mB. cbv zeta.
  assert (Hlen : forall i', length (one_minus_half (E_alpha2 s i' (np_arange (E_bins s))))
                            = E_bins s).
  { intros i'. unfold one_minus_half, np_arange.
    rewrite length_map, length_E_alpha2, length_seq. reflexivity. }
  rewrite (@get_fill_blocks _ _ (E_bins s) (E_bins s)); try lia; [|exact Hlen].
  unfold one_minus_half.
  rewrite (get_map _ _ zero)
    by (unfold np_arange; rewrite length_E_alpha2, length_seq; exact Hj).
  reflexivity.
Qed.

End SparseEntries.

(** ** The matrix pairs over the reals *)

Section MatrixPairsR.
Local Open Scope R_scope.

Lemma get_map_opp (l : vector R) (k : nat) : get (map fneg l) k = - get l k.
Proof.
  unfold get. revert k. induction l as [|x l IH]; intros [|k]; simpl;
    try (cbn; lra); try reflexivity. apply IH.
Qed.

Lemma r_alpha2_arange_entry (s : cn_scheme R) (n i j : nat) :
  (i < n)%nat ->
  get (r_alpha2 s (np_arange n) j) i
  = if Nat.eqb i 0
    then Delta_t s * (xi s 0)² * 4 * get2 (D s) 0 j / (Delta_r s)²
    else Delta_t s * (xi s i)² * (2 * get2 (D s) i j / (Delta_r s)²).
Proof.
  intros Hi. unfold np_arange. destruct n as [|n]; [lia|]. simpl seq.
  unfold r_alpha2, r_alpha_boundary. destruct i as [|i].
  - cbn [Nat.eqb]. change (get (?x :: ?l) 0) with x.
    rewrite !sqr_R, r_prefactor_xi. reflexivity.
  - cbn [Nat.eqb]. change (get (?x :: ?l) (S i)) with (get l i).
    rewrite (get_map _ (seq 1 n) 0%nat) by (rewrite length_seq; lia).
    rewrite seq_nth by lia. rewrite !sqr_R, r_prefactor_xi. reflexivity.
Qed.

Lemma r_alpha3_arange_entry (s : cn_scheme R) (i j : nat) :
  (S i < r_bins s)%nat ->
  get (r_alpha3 s (removelast (np_arange (r_bins s))) j) i
  = if Nat.eqb i 0
    then Delta_t s * (xi s 0)² * 4 * get2 (D s) 0 j / (Delta_r s)²
    else code_alpha3_r s i j.
Proof.
  intros Hi. destruct i as [|i].
  - cbn [Nat.eqb]. unfold np_arange.
    destruct (r_bins s) as [|[|n]]; try lia. rewrite removelast_seq. simpl seq.
    unfold r_alpha3, r_alpha_boundary. change (get (?x :: ?l) 0) with x.
    rewrite !sqr_R, r_prefactor_xi. reflexivity.
  - cbn [Nat.eqb]. rewrite r_alpha3_entry
      by (rewrite ?length_removelast_arange; lia).
    rewrite nth_removelast_arange by lia. reflexivity.
Qed.

Lemma r_alpha1_arange_entry (s : cn_scheme R) (i j : nat) :
  (S i < r_bins s)%nat ->
  get (r_alpha1 s (tl (np_arange (r_bins s))) j) i = code_alpha1_r s (S i) j.
Proof.
  intros Hi. rewrite r_alpha1_entry by (rewrite length_tl_arange; lia).
  rewrite nth_tl_arange by lia. reflexivity.
Qed.

Lemma E_alpha2_arange_entry (s : cn_scheme R) (i j : nat) :
  (j < E_bins s)%nat ->
  get (E_alpha2 s i (np_arange (E_bins s))) j
  = Delta_t s * eta s j * get2 (b s) i j / Delta_E s.
Proof.
  intros Hj. unfold E_alpha2, np_arange.
  rewrite (get_map _ (seq 0 (E_bins s)) 0%nat) by (rewrite length_seq; exact Hj).
  rewrite seq_nth by exact Hj. rewrite E_prefactor_eta. reflexivity.
Qed.

Lemma length_diff_k_u (s : cn_scheme R) :
  length (diff_k_u s) = (r_bins s * E_bins s)%nat.
Proof.
  unfold diff_k_u. cbv zeta. rewrite (Nat.mul_comm (r_bins s) (E_bins s)).
  apply (@length_fill_blocks _ _ (r_bins s) (r_bins s - 1)); [|lia].
  intros j'. unfold halve_neg.
  rewrite length_map, length_r_alpha3. apply length_removelast_arange.
Qed.

(** X1.  Main diagonal of the diffusion pair: block j, radius index i holds
    1 + alpha2/2 in A_r and 1 - alpha2/2 in B_r, with alpha2 the doubled
    coupling 4 D at the inner boundary i = 0 and 2 D elsewhere. *)
Theorem X1_diffusion_main_diagonal (s : cn_scheme R) (i j : nat) :
  grids_ok s -> (i < r_bins s)%nat -> (j < E_bins s)%nat ->
  let r := (j * r_bins s + i)%nat in
  let a := if Nat.eqb i 0
           then Delta_t s * (xi s 0)² * 4 * get2 (D s) 0 j / (Delta_r s)²
           else Delta_t s * (xi s i)² * (2 * get2 (D s) i j / (Delta_r s)²) in
  entry (fst (spmatrices_diff s)) r r = 1 + a / 2 /\
  entry (snd (spmatrices_diff s)) r r = 1 - a / 2.
Proof.
  intros _ Hi Hj r a.
  assert (Hr : (r < r_bins s * E_bins s)%nat) by (unfold r; nia).
  rewrite !entry_main by exact Hr.
  unfold spmatrices_diff, sparse_diags. cbn [fst snd sp_main]. unfold r.
  rewrite diff_k_mA_entry, diff_k_mB_entry by assumption.
  rewrite r_alpha2_arange_entry by exact Hi. fold a. split; reflexivity.
Qed.

(** X2.  Off-diagonals of the diffusion pair inside block j: below the
    diagonal -alpha1(i+1)/2 in A_r and +alpha1(i+1)/2 in B_r; above it
    -alpha3(i)/2 and +alpha3(i)/2, where alpha3(0) is the boundary coupling
    4 D and the other coefficients are those the code evaluates. *)
Theorem X2_diffusion_off_diagonals (s : cn_scheme R) (i j : nat) :
  grids_ok s -> (S i < r_bins s)%nat -> (j < E_bins s)%nat ->
  let r := (j * r_bins s + i)%nat in
  let up := if Nat.eqb i 0
            then Delta_t s * (xi s 0)² * 4 * get2 (D s) 0 j / (Delta_r s)²
            else code_alpha3_r s i j in
  entry (fst (spmatrices_diff s)) (S r) r = - code_alpha1_r s (S i) j / 2 /\
  entry (snd (spmatrices_diff s)) (S r) r = code_alpha1_r s (S i) j / 2 /\
  entry (fst (spmatrices_diff s)) r (S r) = - up / 2 /\
  entry (snd (spmatrices_diff s)) r (S r) = up / 2.
Proof.
  intros _ Hi Hj r up.
  assert (Hr : (S r < r_bins s * E_bins s)%nat) by (unfold r; nia).
  rewrite !entry_lower, !entry_upper by exact Hr.
  unfold spmatrices_diff, sparse_diags. cbn [fst snd sp_lower sp_upper].
  rewrite !get_map_opp. unfold r.
  rewrite diff_k_l_entry, diff_k_u_entry by assumption.
  rewrite r_alpha1_arange_entry, r_alpha3_arange_entry by exact Hi.
  fold up. cbn. repeat split; lra.
Qed.

(** X3.  The blocks do not couple: the entries beside the diagonal that
    would join the last unknown of a block to the first of the next are
    zero, in both matrices of both pairs. *)
Theorem X3_blocks_are_decoupled (s : cn_scheme R) (k : nat) :
  grids_ok s ->
  ((k < E_bins s)%nat ->
   let r := (k * r_bins s + (r_bins s - 1))%nat in
   entry (fst (spmatrices_diff s)) r (S r) = 0 /\
   entry (fst (spmatrices_diff s)) (S r) r = 0 /\
   entry (snd (spmatrices_diff s)) r (S r) = 0 /\
   entry (snd (spmatrices_diff s)) (S r) r = 0) /\
  ((k < r_bins s)%nat ->
   let r := (k * E_bins s + (E_bins s - 1))%nat in
   entry (fst (spmatrices_loss s)) r (S r) = 0 /\
   entry (fst (spmatrices_loss s)) (S r) r = 0 /\
   entry (snd (spmatrices_loss s)) r (S r) = 0 /\
   entry (snd (spmatrices_loss s)) (S r) r = 0).
Proof.
  intros (HI2 & HJ2 & _).
  assert (HI : (1 <= r_bins s)%nat) by lia.
  assert (HJ : (1 <= E_bins s)%nat) by lia.
  split.
  - intros Hk r.
    destruct (Nat.lt_ge_cases (S r) (r_bins s * E_bins s)) as [Hr|Hr].
    + rewrite !entry_lower, !entry_upper by exact Hr.
      unfold spmatrices_diff, sparse_diags. cbn [fst snd sp_lower sp_upper].
      rewrite !get_map_opp. unfold r.
      rewrite diff_k_u_block_end, diff_k_l_block_end by assumption.
      cbn. repeat split; lra.
    + rewrite !entry_outside by (cbn; lia). repeat split; reflexivity.
  - intros Hk r.
    destruct (Nat.lt_ge_cases (S r) (r_bins s * E_bins s)) as [Hr|Hr].
    + rewrite !entry_lower, !entry_upper by exact Hr.
      unfold spmatrices_loss, sparse_diags. cbn [fst snd sp_lower sp_upper].
      rewrite !get_map_opp.
      destruct (@loss_k_l_entry _ _ s r HJ) as [Hl|Hl]; [lia| |];
        unfold r in *; rewrite loss_k_u_block_end, Hl by assumption;
        cbn; repeat split; lra.
    + rewrite !entry_outside by (cbn; lia). repeat split; reflexivity.
Qed.

(** X4.  The energy sweep is upwind: nothing is stored below the diagonal
    of the loss pair, whose main diagonal at block i, energy index j is
    1 + alpha2/2 in A_E and 1 - alpha2/2 in B_E with
    alpha2 = Delta_t eta_j b_ij / Delta_E. *)
Theorem X4_loss_pair_is_upper_bidiagonal (s : cn_scheme R) (i j : nat) :
  grids_ok s -> (i < r_bins s)%nat -> (j < E_bins s)%nat ->
  let r := (i * E_bins s + j)%nat in
  let a := Delta_t s * eta s j * get2 (b s) i j / Delta_E s in
  entry (fst (spmatrices_loss s)) r r = 1 + a / 2 /\
  entry (snd (spmatrices_loss s)) r r = 1 - a / 2 /\
  forall r' c', (c' < r')%nat ->
    entry (fst (spmatrices_loss s)) r' c' = 0 /\
    entry (snd (spmatrices_loss s)) r' c' = 0.
Proof.
  intros _ Hi Hj r a.
  assert (Hr : (r < r_bins s * E_bins s)%nat) by (unfold r; nia).
  rewrite !entry_main by exact Hr.
  unfold spmatrices_loss at 1 2, sparse_diags. cbn [fst snd sp_main]. unfold r.
  rewrite loss_k_mA_entry, loss_k_mB_entry by assumption.
  rewrite E_alpha2_arange_entry by exact Hj. fold a.
  split; [reflexivity|]. split; [reflexivity|].
  intros r' c' Hlt.
  destruct (Nat.eq_dec r' (S c')) as [->|Hne].
  - destruct (Nat.lt_ge_cases (S c') (r_bins s * E_bins s)) as [Hc|Hc].
    + rewrite !entry_lower by exact Hc.
      unfold spmatrices_loss, sparse_diags. cbn [fst snd sp_lower].
      rewrite get_map_opp.
      destruct (@loss_k_l_entry _ _ s c') as [Hl|Hl]; try lia;
        rewrite Hl; cbn; split; lra.
    + rewrite !entry_outside by (cbn; lia). split; reflexivity.
  - rewrite !entry_off_band by lia. split; reflexivity.
Qed.

End MatrixPairsR.

Section PairingR.
Local Open Scope R_scope.

Lemma length_diff_k_l (s : cn_scheme R) :
  length (diff_k_l s) = (r_bins s * E_bins s)%nat.
Proof.
  unfold diff_k_l. cbv zeta. rewrite (Nat.mul_comm (r_bins s) (E_bins s)).
  apply (@length_fill_blocks _ _ (r_bins s) (r_bins s - 1)); [|lia].
  intros j'. unfold halve_neg.
  rewrite length_map, length_r_alpha1. apply length_tl_arange.
Qed.

Lemma div_mod_index (r I J : nat) :
  (r < I * J)%nat ->
  (r / I < J)%nat /\ (r mod I < I)%nat /\ r = ((r / I) * I + r mod I)%nat.
Proof.
  intros Hr. assert (HI : I <> 0%nat) by (intro; subst; simpl in Hr; lia).
  split; [apply Nat.Div0.div_lt_upper_bound; lia|].
  split; [apply Nat.mod_upper_bound; exact HI|].
  rewrite (Nat.div_mod_eq r I) at 1. lia.
Qed.

(** X5.  Each pair is a Crank-Nicolson pair: A + B is twice the identity.
    On the diagonal the two matrices hold 1 + alpha2/2 and 1 - alpha2/2, off
    the diagonal opposite values. *)
Theorem X5_crank_nicolson_pairing (s : cn_scheme R) (r c : nat) :
  grids_ok s ->
  let n := (r_bins s * E_bins s)%nat in
  let twice_identity := if (Nat.eqb r c && Nat.ltb r n)%bool then 2 else 0 in
  entry (fst (spmatrices_diff s)) r c + entry (snd (spmatrices_diff s)) r c
  = twice_identity /\
  entry (fst (spmatrices_loss s)) r c + entry (snd (spmatrices_loss s)) r c
  = twice_identity.
Proof.
  intros _ n twice_identity. unfold twice_identity.
  destruct (Nat.ltb_spec r n) as [Hr|Hr].
  2:{ rewrite andb_false_r. rewrite !entry_outside by (cbn; fold n; lia).
      cbn. split; lra. }
  rewrite andb_true_r.
  destruct (Nat.eqb_spec r c) as [<-|Hrc].
  - rewrite !entry_main by exact Hr.
    unfold spmatrices_diff, spmatrices_loss, sparse_diags. cbn [fst snd sp_main].
    split.
    + destruct (@div_mod_index r (r_bins s) (E_bins s) Hr) as (Hj & Hi & Heq).
      rewrite Heq, diff_k_mA_entry, diff_k_mB_entry by assumption. cbn. lra.
    + assert (Hr' : (r < E_bins s * r_bins s)%nat) by (unfold n in Hr; lia).
      destruct (@div_mod_index r (E_bins s) (r_bins s) Hr') as (Hi & Hj & Heq).
      rewrite Heq, loss_k_mA_entry, loss_k_mB_entry by assumption. cbn. lra.
  - destruct (Nat.ltb_spec c n) as [Hc|Hc].
    2:{ rewrite !entry_outside by (cbn; fold n; lia). cbn. split; lra. }
    destruct (Nat.eq_dec c (S r)) as [->|Hup].
    { rewrite !entry_upper by exact Hc.
      unfold spmatrices_diff, spmatrices_loss, sparse_diags. cbn [fst snd sp_upper].
      rewrite !get_map_opp. split; lra. }
    destruct (Nat.eq_dec r (S c)) as [->|Hlo].
    { rewrite !entry_lower by exact Hr.
      unfold spmatrices_diff, spmatrices_loss, sparse_diags. cbn [fst snd sp_lower].
      rewrite !get_map_opp. split; lra. }
    rewrite !entry_off_band by lia. cbn. split; lra.
Qed.

Lemma ex_accel_grids_ok : grids_ok ex_accel.
Proof.
  unfold grids_ok, has_shape. cbn.
  repeat (split; [first [lia|reflexivity|repeat constructor]|]).
  repeat constructor.
Qed.

Lemma X1_diffusion_main_diagonal_witness :
  entry (fst (spmatrices_diff ex_accel)) 3 3
  = 1 + (1 * (xi ex_accel 1)² * (2 * 1 / 1²)) / 2 /\
  entry (snd (spmatrices_diff ex_accel)) 3 3
  = 1 - (1 * (xi ex_accel 1)² * (2 * 1 / 1²)) / 2.
Proof.
  apply (@X1_diffusion_main_diagonal ex_accel 1 1 ex_accel_grids_ok); cbn; lia.
Defined.

Lemma X2_diffusion_off_diagonals_witness :
  entry (fst (spmatrices_diff ex_accel)) 1 0 = - code_alpha1_r ex_accel 1 0 / 2 /\
  entry (snd (spmatrices_diff ex_accel)) 1 0 = code_alpha1_r ex_accel 1 0 / 2 /\
  entry (fst (spmatrices_diff ex_accel)) 0 1
  = - (1 * (xi ex_accel 0)² * 4 * 1 / 1²) / 2 /\
  entry (snd (spmatrices_diff ex_accel)) 0 1
  = (1 * (xi ex_accel 0)² * 4 * 1 / 1²) / 2.
Proof.
  apply (@X2_diffusion_off_diagonals ex_accel 0 0 ex_accel_grids_ok); cbn; lia.
Defined.

Lemma X3_blocks_are_decoupled_witness :
  entry (fst (spmatrices_diff ex_accel)) 1 2 = 0 /\
  entry (fst (spmatrices_loss ex_accel)) 2 1 = 0.
Proof.
  destruct (@X3_blocks_are_decoupled ex_accel 0 ex_accel_grids_ok) as [Hd Hl].
  split.
  - apply Hd. cbn. lia.
  - apply Hl. cbn. lia.
Defined.

Lemma X4_loss_pair_is_upper_bidiagonal_witness :
  entry (fst (spmatrices_loss ex_accel)) 1 1
  = 1 + (1 * eta ex_accel 1 * 20 / 1) / 2 /\
  entry (fst (spmatrices_loss ex_accel)) 1 0 = 0.
Proof.
  destruct (@X4_loss_pair_is_upper_bidiagonal ex_accel 0 1 ex_accel_grids_ok)
    as (H1 & _ & H3); try (cbn; lia).
  split; [exact H1|]. apply H3. lia.
Defined.

Lemma X5_crank_nicolson_pairing_witness :
  entry (fst (spmatrices_diff ex_accel)) 2 2
  + entry (snd (spmatrices_diff ex_accel)) 2 2 = 2 /\
  entry (fst (spmatrices_loss ex_accel)) 2 3
  + entry (snd (spmatrices_loss ex_accel)) 2 3 = 0.
Proof.
  split.
  - apply (@X5_crank_nicolson_pairing ex_accel 2 2 ex_accel_grids_ok).
  - apply (@X5_crank_nicolson_pairing ex_accel 2 3 ex_accel_grids_ok).
Defined.

End PairingR.

(** ** A finer rule for the loop *)

Section LoopRuleFull.
Context {F : Type} {AF : Arith F}.
Variable spsolve : sparse F -> vector F -> vector F.
Hypothesis Hsolve : solver_ok spsolve.




End LoopRuleFull.

(** ** What the blocks of the body return *)

Section BlockInversion.
Context {F : Type} {AF : Arith F}.
Local Open Scope num_scope.
Variable spsolve : sparse F -> vector F -> vector F.




(** The setters commute with the matrix constructors as far as they
    leave [Delta_t] alone. *)
Lemma spmatrices_set_snapshots (s : cn_scheme F) (x : option (list (snapshot F))) :
  spmatrices_loss (set_snapshots s x) = spmatrices_loss s /\
  spmatrices_diff (set_snapshots s x) = spmatrices_diff s.
Proof. split; reflexivity. Qed.

End BlockInversion.

(** ** Properties of every run *)

Section RunFacts.
Context {F : Type} {AF : Arith F}.
Local Open Scope num_scope.
Variable spsolve : sparse F -> vector F -> vector F.






Hypothesis Hsolve : solver_ok spsolve.




End RunFacts.

Section RunPolicies.
Context {F : Type} {AF : Arith F}.
Local Open Scope num_scope.
Variable spsolve : sparse F -> vector F -> vector F.
Hypothesis Hsolve : solver_ok spsolve.








End RunPolicies.

(** ** The run properties on the example input *)

Section RunWitnesses.






End RunWitnesses.

(** ** What [solveElectrons] sets up *)

Section EnvironmentFields.
Context {F : Type} {AF : Arith F}.
Local Open Scope num_scope.


Lemma index_get (l : vector F) (k : nat) (x : F) :
  index l k = Ok x -> x = get l k.
Proof.
  unfold index, get. intros H.
  destruct (nth_error l k) eqn:E; [|discriminate].
  injection H as <-. symmetry. apply nth_error_nth. exact E.
Qed.

(** The coefficient arrays and the timescales of the object that
    [solveElectrons] passes to [cn_2D]. *)
Lemma solveElectrons_env_fields (bench const anim : bool) (u : unit_factors F)
      (a : solve_args F) :
  valid_input a -> mode_exp a <> 0%Z ->
  let r_grid := map (fun r => r * Mpc_to_cm u) (r_sample a) in
  let Etens := tensordot (np_ones (length (r_sample a))) (E_sample a) in
  let Btens := tensordot (b_sample a) (np_ones (length (E_sample a))) in
  exists s,
    solveElectrons_env bench const anim u a = Ok s /\
    logr_grid s = map (fun r => flog10 (r / (rScale a * Mpc_to_cm u))) r_grid /\
    logE_grid s = map (fun E => flog10 (E / eScale a)) (E_sample a) /\
    D s = set_D (diff0 a) (d0_arg a * Mpc_to_kpc u) (delta_arg a) Btens Etens /\
    has_shape (r_bins s) (E_bins s) (D s) /\
    has_shape (r_bins s) (E_bins s) (dDdr s) /\
    has_shape (r_bins s) (E_bins s) (b s) /\
    loss_ts s = elementwise (b s) (fun i j => get (E_sample a) j / get2 (b s) i j) /\
    diff_ts s = mmap (fun d => (get r_grid 1 - get r_grid 0) ^ 2 / d) (D s).
Proof.
  intros (Hr & HE & Hrho & HQs & _) Hexp r_grid Etens Btens.
  unfold solveElectrons_env, nonzero_divisor.
  destruct (Z.eqb_spec (mode_exp a) 0) as [H0|_]; [contradiction|]. cbn [bind].
  destruct (@index_map_ok _ _ (fun r => r * Mpc_to_cm u) (r_sample a) 1)
    as [r1 Hr1]; [lia|].
  destruct (@index_map_ok _ _ (fun r => r * Mpc_to_cm u) (r_sample a) 0)
    as [r0' Hr0]; [lia|].
  rewrite Hr1, Hr0. cbn [bind].
  apply index_get in Hr1, Hr0. fold r_grid in Hr1, Hr0. subst r1 r0'.
  set (rg := map (fun r => r * Mpc_to_cm u) (r_sample a)).
  destruct (@index_map_ok _ _ (fun r => flog10 (r / (rScale a * Mpc_to_cm u))) rg 1)
    as [lr1 ->]; [unfold rg; rewrite length_map; lia|].
  destruct (@index_map_ok _ _ (fun r => flog10 (r / (rScale a * Mpc_to_cm u))) rg 0)
    as [lr0 ->]; [unfold rg; rewrite length_map; lia|].
  cbn [bind].
  destruct (@index_map_ok _ _ (fun E => flog10 (E / eScale a)) (E_sample a) 1)
    as [lE1 ->]; [lia|].
  destruct (@index_map_ok _ _ (fun E => flog10 (E / eScale a)) (E_sample a) 0)
    as [lE0 ->]; [lia|].
  cbn [bind].
  eexists. split; [reflexivity|].
  cbn [logr_grid logE_grid D dDdr b loss_ts diff_ts r_bins E_bins].
  assert (Hsh : forall f, has_shape (length (r_sample a)) (length (E_sample a))
                                    (elementwise Etens f)).
  { intros f. pose proof (elementwise_shape Etens f) as H.
    unfold Etens in H at 1 2.
    rewrite nrows_tensordot, ncols_tensordot in H
      by (unfold np_ones; rewrite repeat_length; lia).
    unfold np_ones in H. rewrite repeat_length in H. exact H. }
  split; [reflexivity|]. split; [reflexivity|]. split; [reflexivity|].
  split; [apply Hsh|]. split; [apply Hsh|]. split; [apply Hsh|].
  split; reflexivity.
Qed.

End EnvironmentFields.

Section EnvironmentShape.
Context {F : Type} {AF : Arith F}.
Local Open Scope num_scope.

(** The object that [solveElectrons] builds has the shape the matrix
    constructors rely on. *)
Lemma env_grids_ok (bench const anim : bool) (u : unit_factors F)
      (a : solve_args F) (s : cn_scheme F) :
  valid_input a -> solveElectrons_env bench const anim u a = Ok s -> grids_ok s.
Proof.
  intros Hv Hs. pose proof (env_mode_exp _ _ _ _ _ Hs) as Hexp.
  destruct (solveElectrons_env_fields bench const anim u Hv Hexp)
    as (s' & Hs' & Hlr & HlE & _ & HD & HdD & Hb & _).
  rewrite Hs in Hs'. injection Hs' as <-.
  destruct (solveElectrons_env_ok bench const anim u Hv Hexp)
    as (s' & Hs' & HI & HJ & _).
  rewrite Hs in Hs'. injection Hs' as <-.
  destruct Hv as (Hr & HE & _).
  unfold grids_ok. rewrite Hlr, HlE, !length_map, HI, HJ in *.
  repeat (split; [first [lia|reflexivity|assumption]|]). assumption.
Qed.

Variable spsolve : sparse F -> vector F -> vector F.


End EnvironmentShape.

Section EnvironmentR.
Local Open Scope R_scope.

Lemma fold_left_Rmin_le (l : list R) (x : R) :
  fold_left Rmin l x <= x /\ forall y, In y l -> fold_left Rmin l x <= y.
Proof.
  revert x. induction l as [|z l IH]; intros x; simpl.
  - split; [lra|intros y []].
  - destruct (IH (Rmin x z)) as [H1 H2].
    pose proof (Rmin_l x z). pose proof (Rmin_r x z).
    split; [lra|]. intros y [<-|Hy]; [lra|auto].
Qed.

Lemma np_min_le (l : list R) (y : R) : In y l -> np_min l <= y.
Proof.
  destruct l as [|x l]; [intros []|]. unfold np_min.
  destruct (fold_left_Rmin_le l x) as [H1 H2].
  intros [<-|Hy]; [exact H1|auto].
Qed.

Lemma In_flattenC (I J : nat) (m : matrix R) (i j : nat) :
  has_shape I J m -> (i < I)%nat -> (j < J)%nat -> In (get2 m i j) (flattenC m).
Proof.
  intros [HI HJ] Hi Hj. unfold flattenC, get2, row, get.
  apply in_concat. exists (nth i m []).
  assert (Hin : In (nth i m []) m) by (apply nth_In; lia).
  split; [exact Hin|]. apply nth_In.
  rewrite Forall_forall in HJ. rewrite (HJ _ Hin). exact Hj.
Qed.

Lemma mmap_shape (I J : nat) (f : R -> R) (m : matrix R) :
  has_shape I J m -> has_shape I J (mmap f m).
Proof.
  intros [HI HJ]. unfold mmap. split; [rewrite length_map; exact HI|].
  apply Forall_forall. intros x Hx. apply in_map_iff in Hx.
  destruct Hx as (y & <- & Hy). rewrite length_map.
  rewrite Forall_forall in HJ. auto.
Qed.

(** X12.  The diffusion coefficient is the power law in the field and the
    energy, cut off at 10^32 E^alpha with alpha = 2 - delta: entry (i, j)
    depends on the i-th field sample and the j-th energy sample only, and
    never exceeds the cut-off. *)
Theorem X12_diffusion_coefficient_is_capped (bench const anim : bool)
        (u : unit_factors R) (a : solve_args R) (i j : nat) :
  valid_input a -> mode_exp a <> 0%Z ->
  (i < length (r_sample a))%nat -> (j < length (E_sample a))%nat ->
  0 < get (b_sample a) i -> 0 < get (E_sample a) j ->
  0 < d0_arg a * Mpc_to_kpc u ->
  exists s,
    solveElectrons_env bench const anim u a = Ok s /\
    let alpha := 2 - delta_arg a in
    let law := diff0 a * Rpower (d0_arg a * Mpc_to_kpc u) (1 - alpha)
               * Rpower (get (b_sample a) i) (- alpha)
               * Rpower (get (E_sample a) j) alpha in
    let cap := 1 * powerRZ 10 32 * Rpower (get (E_sample a) j) alpha in
    get2 (D s) i j = Rmin law cap /\ get2 (D s) i j <= cap.
Proof.
  intros Hv Hexp Hi Hj _ _ _.
  destruct (solveElectrons_env_fields bench const anim u Hv Hexp)
    as (s & Hs & _ & _ & HD & _).
  exists s. split; [exact Hs|]. intros alpha law cap.
  assert (Hlb : length (b_sample a) = length (r_sample a))
    by (destruct Hv as (_ & _ & _ & _ & H & _); exact H).
  assert (HE : get2 (tensordot (np_ones (length (r_sample a))) (E_sample a)) i j
               = get (E_sample a) j).
  { rewrite get2_tensordot by (unfold np_ones; rewrite ?repeat_length; lia).
    rewrite get_np_ones by exact Hi. cbn. lra. }
  assert (HB : get2 (tensordot (b_sample a) (np_ones (length (E_sample a)))) i j
               = get (b_sample a) i).
  { rewrite get2_tensordot by (unfold np_ones; rewrite ?repeat_length; lia).
    rewrite get_np_ones by exact Hj. cbn. lra. }
  assert (Heq : get2 (D s) i j = Rmin law cap).
  { rewrite HD. unfold set_D. rewrite get2_elementwise.
    2:{ rewrite nrows_tensordot. unfold np_ones. rewrite repeat_length. exact Hi. }
    2:{ rewrite ncols_tensordot by (unfold np_ones; rewrite repeat_length; lia).
        exact Hj. }
    rewrite HE, HB. cbn [fltb fmul fpow fsub fneg of_Z dec R_arith].
    fold alpha. fold law. fold cap. unfold Rltb, Rmin.
    destruct (Rlt_dec cap law); destruct (Rle_dec law cap); try reflexivity; lra. }
  split; [exact Heq|]. rewrite Heq. apply Rmin_r.
Qed.

(** X13.  In constant-step mode (benchmark included), on input in the
    positive regime (where every loss rate and diffusion coefficient is a
    positive number), the initial step [Delta_ti] is the smallest timescale
    of the grid: it lies below every entry of [loss_ts], and below every
    entry of [diff_ts] unless the run is loss-only.  [Delta_t] is
    [Delta_ti] halved when both effects are on and divided by ten in
    benchmark mode. *)
Theorem X13_constant_step_is_the_smallest_timescale (bench const anim : bool)
        (u : unit_factors R) (a : solve_args R) (i j : nat) :
  valid_input a -> mode_exp a <> 0%Z -> positive_regime u a ->
  (if bench then true else const) = true ->
  (i < length (r_sample a))%nat -> (j < length (E_sample a))%nat ->
  exists s,
    solveElectrons_env bench const anim u a = Ok s /\
    Delta_ti s <= get2 (loss_ts s) i j /\
    (lossOnly a = false -> Delta_ti s <= get2 (diff_ts s) i j) /\
    Delta_t s = Delta_ti s * (if lossOnly a then 1 else 5 * / 10)
                * (if bench then 1 * / 10 else 1).
Proof.
  intros Hv Hexp _ Hmode Hi Hj.
  destruct (solveElectrons_env_fields bench const anim u Hv Hexp)
    as (s & Hs & _ & _ & _ & HD & _ & Hb & Hloss & Hdiff).
  destruct (solveElectrons_env_ok bench const anim u Hv Hexp)
    as (s' & Hs' & HI & HJ & _ & Heff & _ & Hcd & _ & _ & _ & _ & _ & Hti & Hdt & _).
  rewrite Hs in Hs'. injection Hs' as <-.
  exists s. split; [exact Hs|].
  rewrite Hcd, Hmode in Hti.
  assert (HLsh : has_shape (r_bins s) (E_bins s) (loss_ts s)).
  { rewrite Hloss. pose proof (elementwise_shape (b s)
      (fun i j => (get (E_sample a) j / get2 (b s) i j)%num)) as H.
    destruct Hb as [Hb1 Hb2].
    assert (Hn : nrows (b s) = r_bins s) by exact Hb1.
    assert (Hc : ncols (b s) = E_bins s).
    { apply (@ncols_shape _ (r_bins s) (E_bins s)); [split; assumption|].
      rewrite HI. lia. }
    rewrite Hn, Hc in H. exact H. }
  assert (HDsh : has_shape (r_bins s) (E_bins s) (diff_ts s)).
  { rewrite Hdiff. apply mmap_shape. exact HD. }
  rewrite <- HI in Hi. rewrite <- HJ in Hj.
  pose proof (np_min_le _ _ (In_flattenC HLsh Hi Hj)) as HL.
  pose proof (np_min_le _ _ (In_flattenC HDsh Hi Hj)) as HDf.
  split; [|split].
  - rewrite Hti, Heff. destruct (lossOnly a); [exact HL|].
    cbn [np_min fold_left]. change fmin with Rmin.
    pose proof (Rmin_l (np_min (flattenC (loss_ts s))) (np_min (flattenC (diff_ts s)))).
    lra.
  - intros HlO. rewrite Hti, Heff, HlO.
    cbn [np_min fold_left]. change fmin with Rmin.
    pose proof (Rmin_r (np_min (flattenC (loss_ts s))) (np_min (flattenC (diff_ts s)))).
    lra.
  - rewrite Hdt, Heff.
    assert (H10 : powerRZ 10 (-1) = / 10).
    { cbn. change (Pos.to_nat 1) with 1%nat. rewrite pow_1. reflexivity. }
    destruct (lossOnly a), bench; cbn [dec of_Z fmul R_arith]; rewrite ?H10; lra.
Qed.

End EnvironmentR.

Section EnvironmentWitnesses.
Local Open Scope R_scope.

Lemma me_R : (me : R) = 511 / 1000000.
Proof.
  unfold me. cbn [dec R_arith]. cbn [powerRZ].
  change (Pos.to_nat 6) with 6%nat. cbn [pow]. lra.
Qed.

Lemma coulomb_bracket_pos (x : R) : 1 <= x -> 0 < 1 + ln x / 75.
Proof.
  intros Hx. assert (H : 0 <= ln x).
  { destruct (Req_dec x 1) as [->|Hne]; [rewrite ln_1; lra|].
    left. rewrite <- ln_1. apply ln_increasing; lra. }
  lra.
Qed.

Lemma ex_positive_regime : positive_regime ex_units (ex_args false).
Proof.
  unfold positive_regime. cbn [ex_args ex_units E_sample ne_sample b_sample
                                      d0_arg diff0 Mpc_to_kpc].
  split; [repeat constructor; lra|]. split; [repeat constructor; lra|].
  split; [repeat constructor; lra|]. split; [lra|]. split; [lra|].
  intros n E Hn HE. apply coulomb_bracket_pos.
  change (me * n)%num with ((me : R) * n). rewrite me_R.
  destruct Hn as [<-|[<-|[]]]; destruct HE as [<-|[<-|[]]].
  - replace (1 / (511 / 1000000 * 1)) with (1000000 / 511) by (field; lra). lra.
  - replace (10 / (511 / 1000000 * 1)) with (10000000 / 511) by (field; lra). lra.
  - replace (1 / (511 / 1000000 * 1)) with (1000000 / 511) by (field; lra). lra.
  - replace (10 / (511 / 1000000 * 1)) with (10000000 / 511) by (field; lra). lra.
Defined.



Lemma X12_diffusion_coefficient_is_capped_witness :
  exists s,
    solveElectrons_env false false false ex_units (ex_args false) = Ok s /\
    get2 (D s) 0 1 <= 1 * powerRZ 10 32 * Rpower 10 (2 - 1 / 3).
Proof.
  destruct (@X12_diffusion_coefficient_is_capped false false false ex_units
              (ex_args false) 0 1 (ex_args_valid false) (@ex_mode_exp false))
    as (s & Hs & _ & Hle); try (cbn; lia); try (cbn; lra).
  exists s. split; [exact Hs|exact Hle].
Defined.

Lemma X13_constant_step_is_the_smallest_timescale_witness :
  exists s,
    solveElectrons_env false true false ex_units (ex_args false) = Ok s /\
    Delta_ti s <= get2 (loss_ts s) 1 0 /\
    Delta_ti s <= get2 (diff_ts s) 1 0.
Proof.
  destruct (@X13_constant_step_is_the_smallest_timescale false true false ex_units
              (ex_args false) 1 0 (ex_args_valid false) (@ex_mode_exp false)
              ex_positive_regime)
    as (s & Hs & HL & HD & _); try reflexivity; try (cbn; lia).
  exists s. split; [exact Hs|]. split; [exact HL|]. apply HD. reflexivity.
Defined.

End EnvironmentWitnesses.

(** * Properties of the cosmology helpers *)

(** Decimal literals as quotients of integers, for [field]. *)
Ltac norm_dec :=
  unfold Q2R; cbn [QArith_base.Qnum QArith_base.Qden];
  repeat match goal with
         | |- context [Z.pow_pos ?a ?b] =>
             let v := eval vm_compute in (Z.pow_pos a b) in
             change (Z.pow_pos a b) with v
         end.

Section CosmologyToday.
Import Cosmology.
Local Open Scope R_scope.

Lemma powerRZ_m1 (x : R) : powerRZ x (-1) = / x.
Proof. cbn. change (Pos.to_nat 1) with 1%nat. rewrite pow_1. reflexivity. Qed.

Lemma powerRZ_m2 (x : R) : powerRZ x (-2) = / (x * x).
Proof. cbn. change (Pos.to_nat 2) with 2%nat. cbn. rewrite Rmult_1_r. reflexivity. Qed.

(** X14.  Today the Hubble parameter is 100 h whatever the density
    parameters are, because the curvature term is defined as their
    complement: hubble_z(0) = 1/(100 h) and
    rho_crit(0) = 2.7755e11 h^2 Msol/Mpc^3. *)
Theorem X14_hubble_and_critical_density_today (cos_env : cosmology_env) :
  h cos_env <> 0 ->
  hubble_z 0 cos_env = / (100 * h cos_env) /\
  rho_crit 0 cos_env = 2.7755e11 * h cos_env ^ 2.
Proof.
  intros Hh.
  assert (H0 : hubble_z 0 cos_env = / (100 * h cos_env)).
  { unfold hubble_z. rewrite powerRZ_m1.
    replace (w_m cos_env * (1.0 + 0) ^ 3
             + (1 - w_m cos_env - w_l cos_env) * (1 + 0) ^ 2 + w_l cos_env)
      with 1 by (cbn [pow]; lra).
    rewrite sqrt_1. f_equal. lra. }
  split; [exact H0|].
  unfold rho_crit. rewrite H0. norm_dec. field. exact Hh.
Qed.

Lemma omega_m_bounds (z : R) (cos_env : cosmology_env) :
  0 < w_m cos_env <= 1 -> 0 <= z -> w_m cos_env <= omega_m z cos_env <= 1.
Proof.
  intros [Hw0 Hw1] Hz.
  unfold omega_m. set (w := w_m cos_env) in *.
  assert (Hu : 1 <= (1 + z) ^ 3).
  { replace 1 with (1 ^ 3) at 1 by (cbn [pow]; lra). apply pow_incr. lra. }
  set (u := (1 + z) ^ 3) in *.
  assert (Hq0 : 0 <= (1.0 - w) / w / u).
  { apply Rmult_le_pos; [apply Rmult_le_pos; [lra|]|];
      left; apply Rinv_0_lt_compat; lra. }
  assert (Hq1 : (1.0 - w) / w / u <= (1.0 - w) / w).
  { unfold Rdiv at 1. rewrite <- (Rmult_1_r ((1.0 - w) / w)) at 2.
    apply Rmult_le_compat_l.
    - apply Rmult_le_pos; [lra|left; apply Rinv_0_lt_compat; lra].
    - rewrite <- Rinv_1. apply Rinv_le_contravar; lra. }
  set (q := (1.0 - w) / w / u) in *.
  assert (Hd : 0 < 1.0 + q) by lra.
  split.
  - apply (Rmult_le_reg_r (1.0 + q)); [exact Hd|].
    replace (1.0 / (1.0 + q) * (1.0 + q)) with 1 by (norm_dec; field; lra).
    assert (w * ((1.0 - w) / w) = 1 - w) by (norm_dec; field; lra).
    assert (w * q <= w * ((1.0 - w) / w)) by (apply Rmult_le_compat_l; lra).
    lra.
  - apply (Rmult_le_reg_r (1.0 + q)); [exact Hd|].
    replace (1.0 / (1.0 + q) * (1.0 + q)) with 1 by (norm_dec; field; lra).
    lra.
Qed.

(** X15.  Both matter-density functions return w_m at z = 0, and for
    0 < w_m <= 1 the matter fraction at any z >= 0 lies between w_m and 1. *)
Theorem X15_matter_fraction (z : R) (cos_env : cosmology_env) :
  0 < w_m cos_env <= 1 -> 0 <= z ->
  omega_m 0 cos_env = w_m cos_env /\
  omega_m_lahav 0 cos_env = w_m cos_env /\
  w_m cos_env <= omega_m z cos_env <= 1.
Proof.
  intros [Hw0 Hw1] Hz.
  split; [unfold omega_m; norm_dec; field; lra|].
  split.
  { unfold omega_m_lahav. rewrite powerRZ_m2.
    replace (w_m cos_env * (1 + 0) ^ 3
             - (w_m cos_env + w_l cos_env - 1.0) * (1 + 0) ^ 2 + w_l cos_env)
      with 1 by (cbn [pow]; lra).
    cbn [pow]. norm_dec. field. }
  apply omega_m_bounds; [split; assumption|exact Hz].
Qed.

End CosmologyToday.

Section CosmologyHalo.
Import Cosmology.
Local Open Scope R_scope.
Local Abbreviation sqrt := R_sqrt.sqrt.

Lemma Reqb_true (x y : R) : x = y -> Reqb x y = true.
Proof. intros H. unfold Reqb. destruct (Req_dec_T x y); [reflexivity|contradiction]. Qed.

Lemma Reqb_false (x y : R) : x <> y -> Reqb x y = false.
Proof. intros H. unfold Reqb. destruct (Req_dec_T x y); [contradiction|reflexivity]. Qed.

Lemma PI_gt_3 : 3 < PI.
Proof. pose proof PI2_3_2. lra. Qed.

Lemma delta_c_pos (z : R) (cos_env : cosmology_env) :
  0 < w_m cos_env <= 1 -> 0 <= z -> 0 < delta_c z cos_env.
Proof.
  intros Hw Hz. pose proof (@omega_m_bounds z cos_env Hw Hz) as [Ho1 Ho2].
  unfold delta_c. set (om := omega_m z cos_env) in *.
  pose proof PI_gt_3 as Hpi.
  assert (Hpi2 : 9 < PI ^ 2) by (cbn [pow]; nra).
  apply Rdiv_lt_0_compat; [|lra].
  assert (Hx0 : 0 <= 1.0 - om) by lra.
  assert (Hx1 : 1.0 - om <= 1) by lra.
  assert (Hx2 : (1.0 - om) ^ 2 <= 1) by (cbn [pow]; nra).
  lra.
Qed.

Lemma hubble_z_pos (z : R) (cos_env : cosmology_env) :
  0 < h cos_env ->
  0 < w_m cos_env * (1 + z) ^ 3
      + (1 - w_m cos_env - w_l cos_env) * (1 + z) ^ 2 + w_l cos_env ->
  0 < hubble_z z cos_env.
Proof.
  intros Hh Hrad. unfold hubble_z. rewrite powerRZ_m1.
  apply Rinv_0_lt_compat.
  apply Rmult_lt_0_compat; [lra|].
  apply sqrt_lt_R0.
  replace (1.0 + z) with (1 + z) by lra. exact Hrad.
Qed.

Lemma rho_crit_pos (z : R) (cos_env : cosmology_env) :
  0 < h cos_env ->
  0 < w_m cos_env * (1 + z) ^ 3
      + (1 - w_m cos_env - w_l cos_env) * (1 + z) ^ 2 + w_l cos_env ->
  0 < rho_crit z cos_env.
Proof.
  intros Hh Hrad. pose proof (@hubble_z_pos z cos_env Hh Hrad) as H.
  unfold rho_crit. apply Rdiv_lt_0_compat; [lra|].
  cbn [pow]. nra.
Qed.

Lemma cube_of_cube_root (x : R) : 0 < x -> Rpower x (1.0 / 3.0) ^ 3 = x.
Proof.
  intros Hx.
  rewrite <- (Rpower_pow 3) by (unfold Rpower; apply exp_pos).
  rewrite Rpower_mult.
  replace (1.0 / 3.0 * INR 3) with 1 by (cbn [INR]; lra).
  apply Rpower_1. exact Hx.
Qed.

Lemma cube_root_of_cube (x : R) : 0 < x -> Rpower (x ^ 3) (1.0 / 3.0) = x.
Proof.
  intros Hx.
  rewrite <- (Rpower_pow 3) by exact Hx.
  rewrite Rpower_mult.
  replace (INR 3 * (1.0 / 3.0)) with 1 by (cbn [INR]; lra).
  apply Rpower_1. exact Hx.
Qed.

(** X16.  Virial mass and virial radius are inverse to each other: for a
    cosmology with 0 < w_m <= 1, h > 0 and a positive expansion rate at
    z >= 0, mvir_from_rvir(rvir(M)) = M for M > 0 and
    rvir(mvir_from_rvir(r)) = r for r > 0. *)
Theorem X16_virial_round_trip (x z : R) (cos_env : cosmology_env) :
  0 < w_m cos_env <= 1 -> 0 < h cos_env -> 0 <= z ->
  0 < w_m cos_env * (1 + z) ^ 3
      + (1 - w_m cos_env - w_l cos_env) * (1 + z) ^ 2 + w_l cos_env ->
  0 < x ->
  mvir_from_rvir (rvir x z cos_env) z cos_env = x /\
  rvir (mvir_from_rvir x z cos_env) z cos_env = x.
Proof.
  intros Hw Hh Hz Hrad Hx.
  pose proof (@delta_c_pos z cos_env Hw Hz) as Hd.
  pose proof (@rho_crit_pos z cos_env Hh Hrad) as Hr.
  pose proof PI_gt_3 as Hpi.
  unfold mvir_from_rvir, rvir.
  set (dc := delta_c z cos_env) in *. set (rc := rho_crit z cos_env) in *.
  assert (HK : 0 < PI * dc * rc).
  { apply Rmult_lt_0_compat; [apply Rmult_lt_0_compat; lra|exact Hr]. }
  split.
  - rewrite cube_of_cube_root.
    + norm_dec. field. repeat split; lra.
    + apply Rdiv_lt_0_compat; [lra|exact HK].
  - replace (0.75 * (4 * PI / 3.0 * dc * rc * x ^ 3) / (PI * dc * rc))
      with (x ^ 3) by (norm_dec; field; repeat split; lra).
    apply cube_root_of_cube. exact Hx.
Qed.

End CosmologyHalo.

Section CosmologyDistances.
Import Cosmology.
Local Open Scope R_scope.
Local Abbreviation sqrt := R_sqrt.sqrt.
Variable quad : (R -> R) -> R -> R -> R.


End CosmologyDistances.

Section CosmologyConcentration.
Import Cosmology.
Local Open Scope R_scope.





End CosmologyConcentration.

Section CosmologyGrowth.
Import Cosmology.
Local Open Scope R_scope.
Local Abbreviation sqrt := R_sqrt.sqrt.

(** X19.  The growth factor is normalised to one today, in the
    Einstein-de Sitter cosmology and in every flat cosmology with
    0 < w_m < 1 and w_l = 1 - w_m. *)
Theorem X19_growth_factor_today (cos_env : cosmology_env) :
  (w_l cos_env = 0 /\ w_m cos_env = 1) \/
  (0 < w_m cos_env < 1 /\ w_l cos_env = 1 - w_m cos_env) ->
  glinear 0 cos_env = 1.
Proof.
  intros [[Hl Hm]|[[Hm0 Hm1] Hl]]; unfold glinear.
  - rewrite (Reqb_true (x := w_l cos_env)) by lra.
    rewrite (Reqb_true (x := w_m cos_env)) by lra.
    cbn [andb]. rewrite powerRZ_m1. replace (1 + 0) with 1 by lra. apply Rinv_1.
  - rewrite (Reqb_false (x := w_l cos_env) (y := 0.0)) by lra.
    rewrite andb_false_r. cbn [andb].
    rewrite Rltb_true by lra. rewrite Reqb_true by lra. cbn [andb].
    replace 0.0 with 0 by lra.
    assert (Hom : omega_m 0 cos_env = w_m cos_env)
      by (unfold omega_m; norm_dec; field; lra).
    rewrite Hom. set (w := w_m cos_env) in *.
    rewrite !powerRZ_m1.
    assert (Hp : 0 < Rpower w (4.0 / 7)) by (unfold Rpower; apply exp_pos).
    set (p := Rpower w (4.0 / 7)) in *.
    assert (HP : 0 < p - (1.0 - w) + (1 + 0.5 * w) * (1 + 1.0 / 70 * (1.0 - w)))
      by nra.
    set (P := p - (1.0 - w) + (1 + 0.5 * w) * (1 + 1.0 / 70 * (1.0 - w))) in *.
    norm_dec. field. repeat split; lra.
Qed.


End CosmologyGrowth.

Section CosmologyCollapse.
Import Cosmology.
Local Open Scope R_scope.
Variable Integrate : list R -> list R -> R.




End CosmologyCollapse.

Section CosmologyWitnesses.
Import Cosmology.
Local Open Scope R_scope.

Lemma X14_hubble_and_critical_density_today_witness :
  hubble_z 0 ex_cosmo = / (100 * 0.6774) /\
  rho_crit 0 ex_cosmo = 2.7755e11 * 0.6774 ^ 2.
Proof.
  apply (X14_hubble_and_critical_density_today ex_cosmo). cbn. lra.
Defined.

Lemma X15_matter_fraction_witness :
  omega_m 0 ex_cosmo = 0.3089 /\
  omega_m_lahav 0 ex_cosmo = 0.3089 /\
  0.3089 <= omega_m 1 ex_cosmo <= 1.
Proof.
  apply (@X15_matter_fraction 1 ex_cosmo); cbn; lra.
Defined.

Lemma X16_virial_round_trip_witness :
  mvir_from_rvir (rvir 1e12 0 ex_cosmo) 0 ex_cosmo = 1e12 /\
  rvir (mvir_from_rvir 1e12 0 ex_cosmo) 0 ex_cosmo = 1e12.
Proof.
  apply (@X16_virial_round_trip 1e12 0 ex_cosmo); cbn; lra.
Defined.


Lemma X19_growth_factor_today_witness : glinear 0 ex_cosmo = 1.
Proof.
  apply (X19_growth_factor_today ex_cosmo). right. cbn. lra.
Defined.


End CosmologyWitnesses.

(** * Properties of the dictionary checks *)

Section DictionaryFacts.
Import DictionaryChecks.
Import String.StringSyntax.
Local Open Scope string_scope.
Context {F : Type} {AF : Arith F}.

Lemma lookup_setitem_eq (d : dict F) (k : String.string) (v : value F) :
  lookup (setitem d k v) k = Some v.
Proof.
  induction d as [|[k' v'] r IH]; cbn.
  - rewrite String.eqb_refl. reflexivity.
  - destruct (String.eqb k' k) eqn:E; cbn.
    + rewrite String.eqb_refl. reflexivity.
    + rewrite E. exact IH.
Qed.

Lemma lookup_setitem_neq (d : dict F) (k k' : String.string) (v : value F) :
  k <> k' -> lookup (setitem d k v) k' = lookup d k'.
Proof.
  intros Hne. induction d as [|[k0 v0] r IH]; cbn.
  - destruct (String.eqb_spec k k'); [contradiction|reflexivity].
  - destruct (String.eqb_spec k0 k) as [->|Hk]; cbn.
    + destruct (String.eqb_spec k k'); [contradiction|reflexivity].
    + destruct (String.eqb k0 k'); [reflexivity|exact IH].
Qed.

Lemma setitem_same (d : dict F) (k : String.string) (v : value F) :
  lookup d k = Some v -> setitem d k v = d.
Proof.
  induction d as [|[k0 v0] r IH]; cbn; [discriminate|].
  destruct (String.eqb_spec k0 k) as [->|Hk].
  - intros [= ->]. reflexivity.
  - intros H. rewrite IH by exact H. reflexivity.
Qed.

Lemma has_key_lookup (d : dict F) (k : String.string) :
  has_key d k = match lookup d k with Some _ => true | None => false end.
Proof. reflexivity. Qed.

(** The idiom [if not k in d.keys(): d[k] = v]. *)
Lemma default_eq (d : dict F) (k : String.string) (v : value F) :
  lookup (if negb (has_key d k) then setitem d k v else d) k
  = Some (match lookup d k with Some x => x | None => v end).
Proof.
  unfold has_key. destruct (lookup d k) eqn:E; cbn [negb].
  - exact E.
  - apply lookup_setitem_eq.
Qed.

Lemma default_neq (d : dict F) (k k' : String.string) (v : value F) :
  k <> k' -> lookup (if negb (has_key d k) then setitem d k v else d) k' = lookup d k'.
Proof.
  intros Hne. destruct (negb (has_key d k)); [|reflexivity].
  apply lookup_setitem_neq. exact Hne.
Qed.

Lemma default_keeps (d : dict F) (k k' : String.string) (v x : value F) :
  lookup d k' = Some x ->
  lookup (if negb (has_key d k) then setitem d k v else d) k' = Some x.
Proof.
  intros H. destruct (String.eqb_spec k k') as [->|Hne].
  - rewrite default_eq, H. reflexivity.
  - rewrite default_neq by exact Hne. exact H.
Qed.

Lemma default_present (d : dict F) (k : String.string) (v x : value F) :
  lookup d k = Some x -> (if negb (has_key d k) then setitem d k v else d) = d.
Proof. intros H. unfold has_key. rewrite H. reflexivity. Qed.

Lemma is_cvir_mode_In (v : value F) :
  is_cvir_mode v = true <-> exists c, v = VStr c /\ In c cvir_modes.
Proof.
  split.
  - destruct v as [| | | |s]; cbn [is_cvir_mode]; try discriminate.
    intros H. apply existsb_exists in H. destruct H as (c & Hc & He).
    apply String.eqb_eq in He. subst c. exists s. split; [reflexivity|exact Hc].
  - intros (c & -> & Hc). cbn [is_cvir_mode]. apply existsb_exists.
    exists c. split; [exact Hc|apply String.eqb_refl].
Qed.

Lemma one_minus_number (v : value F) :
  (is_number v = true -> exists w, one_minus v = Returns w /\ is_number w = true) /\
  (is_number v = false -> one_minus v = Raises TypeErr).
Proof.
  destruct v; cbn; split; intros H; try discriminate; try reflexivity;
    eexists; split; reflexivity.
Qed.

Lemma complete_omegas_spec (d : dict F) :
  (omegas_ok d = false -> complete_omegas d = Raises TypeErr) /\
  (omegas_ok d = true ->
   exists d1 m l,
     complete_omegas d = Returns d1 /\
     lookup d1 "omega_m" = Some m /\ lookup d1 "omega_l" = Some l /\
     (forall k v, lookup d k = Some v -> lookup d1 k = Some v) /\
     (forall k, k <> "omega_m" -> k <> "omega_l" -> lookup d1 k = lookup d k) /\
     (lookup d "omega_l" = None -> one_minus m = Returns l) /\
     (lookup d "omega_m" = None -> lookup d "omega_l" <> None ->
      one_minus l = Returns m) /\
     (lookup d "omega_m" = None -> lookup d "omega_l" = None ->
      m = VFloat (dec 3089 (-4)))).
Proof.
  unfold omegas_ok, complete_omegas, has_key, getitem.
  destruct (lookup d "omega_m") as [m|] eqn:Hm;
    destruct (lookup d "omega_l") as [l|] eqn:Hl; cbn [negb andb].
  - split; [discriminate|]. intros _. exists d, m, l.
    repeat (split; [first [reflexivity|assumption|discriminate|auto]|]).
    intros; discriminate.
  - destruct (one_minus_number m) as [Hn Hb].
    split.
    + intros H. rewrite (Hb H). reflexivity.
    + intros H. destruct (Hn H) as (w & Hw & _). rewrite Hw.
      exists (setitem d "omega_l" w), m, w.
      split; [reflexivity|].
      split; [rewrite lookup_setitem_neq by discriminate; exact Hm|].
      split; [apply lookup_setitem_eq|].
      split.
      { intros k v Hk. destruct (String.eqb_spec "omega_l" k) as [<-|Hne];
          [congruence|]. rewrite lookup_setitem_neq by exact Hne. exact Hk. }
      split; [intros k _ Hk; apply lookup_setitem_neq; congruence|].
      split; [intros _; exact Hw|].
      split; intros; discriminate.
  - destruct (one_minus_number l) as [Hn Hb].
    split.
    + intros H. rewrite (Hb H). reflexivity.
    + intros H. destruct (Hn H) as (w & Hw & _). rewrite Hw.
      exists (setitem d "omega_m" w), w, l.
      split; [reflexivity|].
      split; [apply lookup_setitem_eq|].
      split; [rewrite lookup_setitem_neq by discriminate; exact Hl|].
      split.
      { intros k v Hk. destruct (String.eqb_spec "omega_m" k) as [<-|Hne];
          [congruence|]. rewrite lookup_setitem_neq by exact Hne. exact Hk. }
      split; [intros k Hk _; apply lookup_setitem_neq; congruence|].
      split; [intros; discriminate|].
      split; [intros _ _; exact Hw|intros; discriminate].
  - split; [discriminate|]. intros _.
    rewrite lookup_setitem_eq. cbn [one_minus].
    set (m := VFloat (dec 3089 (-4))). set (l := VFloat (of_Z 1 - dec 3089 (-4))%num).
    exists (setitem (setitem d "omega_m" m) "omega_l" l), m, l.
    split; [reflexivity|].
    split; [rewrite lookup_setitem_neq by discriminate; apply lookup_setitem_eq|].
    split; [apply lookup_setitem_eq|].
    split.
    { intros k v Hk.
      destruct (String.eqb_spec "omega_l" k) as [<-|Hne]; [congruence|].
      rewrite lookup_setitem_neq by exact Hne.
      destruct (String.eqb_spec "omega_m" k) as [<-|Hne']; [congruence|].
      rewrite lookup_setitem_neq by exact Hne'. exact Hk. }
    split.
    { intros k Hk1 Hk2. rewrite !lookup_setitem_neq by congruence. reflexivity. }
    split; [intros _; reflexivity|].
    split; [intros _ H; contradiction|intros _ _; reflexivity].
Qed.

Lemma complete_mode_spec (d : dict F) :
  (mode_ok d = false -> complete_mode_and_h d = Exits) /\
  (mode_ok d = true ->
   exists d' c hh,
     complete_mode_and_h d = Returns d' /\
     lookup d' "cvir_mode" = Some (VStr c) /\ In c cvir_modes /\
     lookup d' "h" = Some hh /\
     (forall k v, lookup d k = Some v -> lookup d' k = Some v) /\
     (forall k, k <> "cvir_mode" -> k <> "h" -> lookup d' k = lookup d k) /\
     (lookup d "cvir_mode" = None -> c = "p12") /\
     (lookup d "h" = None -> hh = VFloat (dec 6774 (-4)))).
Proof.
  unfold mode_ok, complete_mode_and_h, getitem.
  rewrite default_eq.
  destruct (lookup d "cvir_mode") as [mode|] eqn:Hmode.
  - split.
    + intros H. rewrite H. reflexivity.
    + intros H. rewrite H. cbn [negb].
      destruct (proj1 (is_cvir_mode_In mode) H) as (c & -> & Hc).
      rewrite (@default_present d "cvir_mode" _ _ Hmode).
      eexists _, c, _. split; [reflexivity|].
      split; [apply default_keeps; exact Hmode|].
      split; [exact Hc|]. split; [apply default_eq|].
      split; [intros k v Hk; apply default_keeps; exact Hk|].
      split; [intros k _ Hk; apply default_neq; congruence|].
      split; [intros; discriminate|]. intros ->. reflexivity.
  - split; [discriminate|]. intros _.
    change (is_cvir_mode (VStr "p12")) with true. cbn [negb].
    assert (Hd : (if negb (has_key d "cvir_mode")
                  then setitem d "cvir_mode" (VStr "p12") else d)
                 = setitem d "cvir_mode" (VStr "p12"))
      by (unfold has_key; rewrite Hmode; reflexivity).
    rewrite Hd.
    eexists _, "p12", _. split; [reflexivity|].
    split; [apply default_keeps; apply lookup_setitem_eq|].
    split; [cbn; auto|]. split; [apply default_eq|].
    split.
    { intros k v Hk. apply default_keeps.
      destruct (String.eqb_spec "cvir_mode" k) as [<-|Hne]; [congruence|].
      rewrite lookup_setitem_neq by exact Hne. exact Hk. }
    split.
    { intros k Hk1 Hk2. rewrite default_neq by congruence.
      apply lookup_setitem_neq. congruence. }
    split; [reflexivity|].
    intros Hh. rewrite lookup_setitem_neq by discriminate. rewrite Hh. reflexivity.
Qed.

Lemma check_cosmology_fixed (d : dict F) (m l hh : value F) (c : String.string) :
  lookup d "omega_m" = Some m -> lookup d "omega_l" = Some l ->
  lookup d "cvir_mode" = Some (VStr c) -> In c cvir_modes ->
  lookup d "h" = Some hh ->
  check_cosmology d = Returns d.
Proof.
  intros Hm Hl Hc Hin Hh.
  unfold check_cosmology, complete_omegas, complete_mode_and_h, has_key, getitem.
  rewrite Hm, Hl. cbn [negb andb]. rewrite Hc. cbn [negb].
  rewrite Hc, Hh.
  assert (Hv : is_cvir_mode (VStr c) = true)
    by (apply is_cvir_mode_In; exists c; split; [reflexivity|exact Hin]).
  rewrite Hv. reflexivity.
Qed.

Lemma mode_ok_after_omegas (d d1 : dict F) :
  (forall k, k <> "omega_m" -> k <> "omega_l" -> lookup d1 k = lookup d k) ->
  mode_ok d1 = mode_ok d.
Proof. intros H. unfold mode_ok. rewrite H by discriminate. reflexivity. Qed.

(** X22.  check_cosmology has three outcomes, decided by its argument: it
    raises TypeError when exactly one density parameter is given and that
    one is not a number; otherwise it ends the program when a cvir_mode is
    given that is not one of the four names; otherwise it returns. *)
Theorem X22_check_cosmology_outcome (d : dict F) :
  (omegas_ok d = false -> check_cosmology d = Raises TypeErr) /\
  (omegas_ok d = true -> mode_ok d = false -> check_cosmology d = Exits) /\
  (omegas_ok d = true -> mode_ok d = true ->
   exists d', check_cosmology d = Returns d').
Proof.
  destruct (complete_omegas_spec d) as [Hbad Hgood]. unfold check_cosmology.
  split; [intros H; rewrite (Hbad H); reflexivity|].
  split.
  - intros H Hmode.
    destruct (Hgood H) as (d1 & m & l & -> & _ & _ & _ & Hsame & _).
    apply (proj1 (complete_mode_spec d1)).
    rewrite (@mode_ok_after_omegas d d1 Hsame). exact Hmode.
  - intros H Hmode.
    destruct (Hgood H) as (d1 & m & l & -> & _ & _ & _ & Hsame & _).
    destruct (proj2 (complete_mode_spec d1)) as (d' & c & hh & Hd' & _).
    + rewrite (@mode_ok_after_omegas d d1 Hsame). exact Hmode.
    + exists d'. exact Hd'.
Qed.

(** X23.  When check_cosmology returns, every item the caller gave is
    unchanged (two density parameters that do not sum to one included); the
    result has omega_m, omega_l, a valid cvir_mode and h; a density
    parameter that was missing is one minus the other, with omega_m = 0.3089
    when both were missing; the other defaults are cvir_mode = p12 and
    h = 0.6774; and checking the result again changes nothing. *)
Theorem X23_check_cosmology_result (d d' : dict F) :
  check_cosmology d = Returns d' ->
  (forall k v, lookup d k = Some v -> lookup d' k = Some v) /\
  (exists m l c hh,
     lookup d' "omega_m" = Some m /\ lookup d' "omega_l" = Some l /\
     lookup d' "cvir_mode" = Some (VStr c) /\ In c cvir_modes /\
     lookup d' "h" = Some hh /\
     (lookup d "omega_l" = None -> one_minus m = Returns l) /\
     (lookup d "omega_m" = None -> lookup d "omega_l" <> None ->
      one_minus l = Returns m) /\
     (lookup d "omega_m" = None -> lookup d "omega_l" = None ->
      m = VFloat (dec 3089 (-4))) /\
     (lookup d "cvir_mode" = None -> c = "p12") /\
     (lookup d "h" = None -> hh = VFloat (dec 6774 (-4)))) /\
  check_cosmology d' = Returns d'.
Proof.
  intros Hret.
  destruct (complete_omegas_spec d) as [Hbad Hgood].
  destruct (omegas_ok d) eqn:Hok.
  2:{ unfold check_cosmology in Hret. rewrite (Hbad eq_refl) in Hret. discriminate. }
  destruct (Hgood eq_refl)
    as (d1 & m & l & Hd1 & Hm & Hl & Hkeep1 & Hsame1 & Hml & Hlm & Hdef).
  unfold check_cosmology in Hret. rewrite Hd1 in Hret.
  destruct (complete_mode_spec d1) as [Hexit Hfine].
  destruct (mode_ok d1) eqn:Hmode.
  2:{ rewrite (Hexit eq_refl) in Hret. discriminate. }
  destruct (Hfine eq_refl)
    as (d2 & c & hh & Hd2 & Hc & Hin & Hh & Hkeep2 & Hsame2 & Hcdef & Hhdef).
  rewrite Hd2 in Hret. injection Hret as <-.
  split; [intros k v Hk; apply Hkeep2, Hkeep1, Hk|].
  split.
  - exists m, l, c, hh.
    split; [apply Hkeep2, Hm|]. split; [apply Hkeep2, Hl|].
    split; [exact Hc|]. split; [exact Hin|]. split; [exact Hh|].
    split; [exact Hml|]. split; [exact Hlm|]. split; [exact Hdef|].
    split.
    + intros H. apply Hcdef. rewrite Hsame1 by discriminate. exact H.
    + intros H. apply Hhdef. rewrite Hsame1 by discriminate. exact H.
  - apply (@check_cosmology_fixed d2 m l hh c (Hkeep2 _ _ Hm) (Hkeep2 _ _ Hl) Hc Hin Hh).
Qed.

End DictionaryFacts.

Section DiffusionDictionary.
Import DictionaryChecks.
Import String.StringSyntax.
Local Open Scope string_scope.
Context {F : Type} {AF : Arith F}.

(** The four defaults that [check_diffusion] sets first. *)
Lemma check_diffusion_defaults (d : dict F) :
  exists d4,
    (forall k v, lookup d k = Some v -> lookup d4 k = Some v) /\
    (forall k, k <> "loss_only" -> k <> "photon_density" -> k <> "photon_temp" ->
               k <> "diff_rmax" -> lookup d4 k = lookup d k) /\
    lookup d4 "loss_only"
    = Some (match lookup d "loss_only" with Some v => v | None => VBool false end) /\
    lookup d4 "photon_density"
    = Some (match lookup d "photon_density" with
            | Some v => v | None => VFloat (of_Z 0) end) /\
    lookup d4 "photon_temp"
    = Some (match lookup d "photon_temp" with
            | Some v => v | None => VFloat (dec 27255 (-4)) end) /\
    lookup d4 "diff_rmax"
    = Some (match lookup d "diff_rmax" with Some v => v | None => VStr "2*Rvir" end) /\
    check_diffusion d
    = match getitem d4 "loss_only" with
      | Returns lo =>
          if truthy lo then Returns (setitem d4 "diff_constant" (VFloat (of_Z 0)))
          else
            let d5 := if negb (has_key d4 "diff_constant")
                      then setitem d4 "diff_constant" (VFloat (dec 3 28)) else d4 in
            Returns (if negb (has_key d5 "diff_index")
                     then setitem d5 "diff_index" (VFloat (of_Z 1 / of_Z 3)%num)
                     else d5)
      | Exits => Exits
      | Raises e => Raises e
      end.
Proof.
  set (d1 := if negb (has_key d "loss_only")
             then setitem d "loss_only" (VBool false) else d).
  set (d2 := if negb (has_key d1 "photon_density")
             then setitem d1 "photon_density" (VFloat (of_Z 0)) else d1).
  set (d3 := if negb (has_key d2 "photon_temp")
             then setitem d2 "photon_temp" (VFloat (dec 27255 (-4))) else d2).
  set (d4 := if negb (has_key d3 "diff_rmax")
             then setitem d3 "diff_rmax" (VStr "2*Rvir") else d3).
  exists d4.
  split.
  { intros k v Hk. unfold d4, d3, d2, d1. repeat apply default_keeps. exact Hk. }
  split.
  { intros k H1 H2 H3 H4. unfold d4, d3, d2, d1.
    rewrite !default_neq by congruence. reflexivity. }
  split.
  { unfold d4, d3, d2. rewrite !default_neq by discriminate.
    unfold d1. apply default_eq. }
  split.
  { unfold d4, d3. rewrite !default_neq by discriminate.
    unfold d2. rewrite default_eq. unfold d1.
    rewrite default_neq by discriminate. reflexivity. }
  split.
  { unfold d4. rewrite default_neq by discriminate.
    unfold d3. rewrite default_eq. unfold d2, d1.
    rewrite !default_neq by discriminate. reflexivity. }
  split.
  { unfold d4. rewrite default_eq. unfold d3, d2, d1.
    rewrite !default_neq by discriminate. reflexivity. }
  reflexivity.
Qed.

Lemma check_diffusion_fixed (d : dict F) (lo pd pt rm dc : value F) :
  lookup d "loss_only" = Some lo -> lookup d "photon_density" = Some pd ->
  lookup d "photon_temp" = Some pt -> lookup d "diff_rmax" = Some rm ->
  lookup d "diff_constant" = Some dc ->
  (truthy lo = true -> dc = VFloat (of_Z 0)) ->
  (truthy lo = false -> lookup d "diff_index" <> None) ->
  check_diffusion d = Returns d.
Proof.
  intros Hlo Hpd Hpt Hrm Hdc Ht Hf.
  unfold check_diffusion.
  rewrite (@default_present _ d "loss_only" _ _ Hlo).
  rewrite (@default_present _ d "photon_density" _ _ Hpd).
  rewrite (@default_present _ d "photon_temp" _ _ Hpt).
  rewrite (@default_present _ d "diff_rmax" _ _ Hrm).
  unfold getitem. rewrite Hlo.
  destruct (truthy lo) eqn:E.
  - rewrite setitem_same; [reflexivity|]. rewrite Hdc, (Ht eq_refl). reflexivity.
  - rewrite (@default_present _ d "diff_constant" _ _ Hdc).
    destruct (lookup d "diff_index") as [di|] eqn:Hdi; [|destruct (Hf eq_refl eq_refl)].
    rewrite (@default_present _ d "diff_index" _ _ Hdi). reflexivity.
Qed.

(** X24.  check_diffusion always returns.  Every item the caller gave is
    kept, with one exception: when loss_only is true, diff_constant is set
    to 0.0 whatever the caller gave, and diff_index is left as it was (it
    may be missing).  Otherwise diff_constant and diff_index default to
    3e28 and 1/3.  loss_only, photon_density, photon_temp and diff_rmax
    default to False, 0.0, 2.7255 and 2*Rvir.  Checking the result again
    changes nothing. *)
Theorem X24_check_diffusion_result (d : dict F) :
  exists d' lo,
    check_diffusion d = Returns d' /\
    lookup d' "loss_only" = Some lo /\
    lo = match lookup d "loss_only" with Some v => v | None => VBool false end /\
    (forall k v, k <> "diff_constant" -> lookup d k = Some v ->
                 lookup d' k = Some v) /\
    (truthy lo = true ->
     lookup d' "diff_constant" = Some (VFloat (of_Z 0)) /\
     lookup d' "diff_index" = lookup d "diff_index") /\
    (truthy lo = false ->
     lookup d' "diff_constant"
     = Some (match lookup d "diff_constant" with
             | Some v => v | None => VFloat (dec 3 28) end) /\
     lookup d' "diff_index"
     = Some (match lookup d "diff_index" with
             | Some v => v | None => VFloat (of_Z 1 / of_Z 3)%num end)) /\
    lookup d' "photon_density"
    = Some (match lookup d "photon_density" with
            | Some v => v | None => VFloat (of_Z 0) end) /\
    lookup d' "photon_temp"
    = Some (match lookup d "photon_temp" with
            | Some v => v | None => VFloat (dec 27255 (-4)) end) /\
    lookup d' "diff_rmax"
    = Some (match lookup d "diff_rmax" with Some v => v | None => VStr "2*Rvir" end) /\
    check_diffusion d' = Returns d'.
Proof.
  destruct (check_diffusion_defaults d)
    as (d4 & Hkeep & Hsame & Hlo & Hpd & Hpt & Hrm & Heq).
  rewrite Heq. unfold getitem. rewrite Hlo.
  set (lo := match lookup d "loss_only" with Some v => v | None => VBool false end)
    in *.
  destruct (truthy lo) eqn:E.
  - exists (setitem d4 "diff_constant" (VFloat (of_Z 0))), lo.
    split; [reflexivity|].
    split; [rewrite lookup_setitem_neq by discriminate; exact Hlo|].
    split; [reflexivity|].
    split.
    { intros k v Hk Hv. rewrite lookup_setitem_neq by congruence.
      apply Hkeep. exact Hv. }
    split.
    { intros _. split; [apply lookup_setitem_eq|].
      rewrite lookup_setitem_neq by discriminate. apply Hsame; discriminate. }
    split; [intros; congruence|].
    split; [rewrite lookup_setitem_neq by discriminate; exact Hpd|].
    split; [rewrite lookup_setitem_neq by discriminate; exact Hpt|].
    split; [rewrite lookup_setitem_neq by discriminate; exact Hrm|].
    eapply (@check_diffusion_fixed _ lo _ _ _ (VFloat (of_Z 0))).
    + rewrite lookup_setitem_neq by discriminate. exact Hlo.
    + rewrite lookup_setitem_neq by discriminate. exact Hpd.
    + rewrite lookup_setitem_neq by discriminate. exact Hpt.
    + rewrite lookup_setitem_neq by discriminate. exact Hrm.
    + apply lookup_setitem_eq.
    + intros _. reflexivity.
    + intros; congruence.
  - cbn zeta.
    set (d5 := if negb (has_key d4 "diff_constant")
               then setitem d4 "diff_constant" (VFloat (dec 3 28)) else d4).
    set (d6 := if negb (has_key d5 "diff_index")
               then setitem d5 "diff_index" (VFloat (of_Z 1 / of_Z 3)%num) else d5).
    assert (Hdc : lookup d6 "diff_constant"
                  = Some (match lookup d "diff_constant" with
                          | Some v => v | None => VFloat (dec 3 28) end)).
    { unfold d6. rewrite default_neq by discriminate. unfold d5.
      rewrite default_eq. rewrite Hsame by discriminate. reflexivity. }
    assert (Hdi : lookup d6 "diff_index"
                  = Some (match lookup d "diff_index" with
                          | Some v => v
                          | None => VFloat (of_Z 1 / of_Z 3)%num end)).
    { unfold d6. rewrite default_eq. unfold d5.
      rewrite default_neq by discriminate.
      rewrite Hsame by discriminate. reflexivity. }
    assert (Hk6 : forall k v, lookup d4 k = Some v -> lookup d6 k = Some v).
    { intros k v Hk. unfold d6, d5. repeat apply default_keeps. exact Hk. }
    exists d6, lo.
    split; [reflexivity|].
    split; [apply Hk6; exact Hlo|].
    split; [reflexivity|].
    split; [intros k v _ Hv; apply Hk6, Hkeep, Hv|].
    split; [intros; congruence|].
    split; [intros _; split; assumption|].
    split; [apply Hk6; exact Hpd|].
    split; [apply Hk6; exact Hpt|].
    split; [apply Hk6; exact Hrm|].
    eapply (@check_diffusion_fixed d6 lo).
    + apply Hk6. exact Hlo.
    + apply Hk6. exact Hpd.
    + apply Hk6. exact Hpt.
    + apply Hk6. exact Hrm.
    + exact Hdc.
    + intros; congruence.
    + intros _. rewrite Hdi. discriminate.
Qed.

End DiffusionDictionary.

Section DictionaryWitnesses.
Import DictionaryChecks.
Import String.StringSyntax.
Local Open Scope string_scope.
Local Open Scope R_scope.

Lemma X22_check_cosmology_outcome_witness :
  exists d', check_cosmology ex_cosmo_dict = Returns d'.
Proof.
  destruct (@X22_check_cosmology_outcome R R_arith ex_cosmo_dict) as (_ & _ & H).
  apply H; reflexivity.
Defined.

Lemma X23_check_cosmology_result_witness :
  lookup ex_cosmo_checked "omega_l" = Some (VFloat 0.7) /\
  check_cosmology ex_cosmo_checked = Returns ex_cosmo_checked.
Proof.
  destruct (@X23_check_cosmology_result R R_arith ex_cosmo_dict ex_cosmo_checked
              eq_refl) as (Hk & _ & Hi).
  split; [apply Hk; reflexivity|exact Hi].
Defined.

End DictionaryWitnesses.

(** ** The snapshots, one by one *)

Section SnapshotContents.
Context {F : Type} {AF : Arith F}.
Variable spsolve : sparse F -> vector F -> vector F.







End SnapshotContents.

Section SnapshotWitness.
Local Open Scope R_scope.


End SnapshotWitness.
